(** * pubsubstar: a shallow embedding of [index.js]

    The module exports three methods, [subscribe], [unsubscribe] and
    [publish], and a private helper [forEachTopic].  Each method works on
    the subscription namespace stored in the hidden [_pubsub] property of
    its receiver ([this]).

    Modelling choices.
    - JavaScript values are the inductive type [value]; a number is an
      IEEE 754 double, given by its 64 bits; a function object is known
      by its reference ([fnref]), which is all that [indexOf] (strict
      equality) looks at.
    - Strings are [string]; only code units below 256 are represented.
    - A context is an object: what matters of it is its [_pubsub]
      property and whether it is extensible, since [subscribe] adds
      the property with [Object.defineProperty].  The methods called on
      a receiver that is not an object are not modelled.
    - The namespace object ([Object.create(null)]) is an association list
      in property creation order; [for ... in] enumerates it the way
      ordinary objects are enumerated (array-index keys first, ascending,
      then the other keys in creation order), see [forInKeys].
    - The built-in [RegExp] is modelled for a fragment of the pattern
      language, following the matcher/continuation semantics of ECMA-262
      (section "Pattern Semantics"), see [matcher] and [parsePattern].
      A pattern outside the fragment makes the model answer [Beyond].
    - Subscribers are opaque: [invoke f this message w] runs the function
      [f] on an outside world [w]; it returns or throws a value.  A
      subscriber that subscribes or unsubscribes on the same context while
      it is being dispatched is not modelled. *)

From Stdlib Require Import String Ascii List Bool Arith PeanoNat NArith ZArith Lia.
From Stdlib Require Import Permutation.
Import ListNotations.
Open Scope string_scope.
Open Scope list_scope.

(** ** JavaScript values *)

(** The identity of a function object. *)
Definition fnref := nat.

(** Abstract syntax of the modelled pattern fragment. *)
Inductive regex : Type :=
| Empty                      (* the empty alternative *)
| Chr (c : ascii)            (* a pattern character, or an identity escape *)
| Dot                        (* [.] : any character but a line terminator *)
| Bol                        (* [^], no multiline flag *)
| Eol                        (* [$], no multiline flag *)
| Seq (a b : regex)
| Alt (a b : regex)          (* [a|b], [a] tried first *)
| Star (a : regex)           (* greedy [a*] *)
| Plus (a : regex)           (* greedy [a+] *)
| Opt (a : regex).           (* greedy [a?] *)

(** A RegExp object: its pattern, the two flags that make [test]
    stateful, and the mutable [lastIndex] property.  The flags [i], [m],
    [s] and [u] are not modelled. *)
Record RegExp : Type := mkRegExp {
  pattern : regex;
  global : bool;
  sticky : bool;
  lastIndex : nat
}.

(** A number: the 64 bits of an IEEE 754 double (sign, 11 bits of
    exponent, 52 bits of fraction), as an integer below 2^64. *)
Definition double := Z.

Definition exponentBits (x : double) : Z := Z.land (Z.shiftr x 52) 2047.

Definition fractionBits (x : double) : Z := Z.land x (Z.ones 52).

(** [+0] and [-0] *)
Definition isZero (x : double) : bool :=
  Z.eqb (exponentBits x) 0 && Z.eqb (fractionBits x) 0.

Definition isNaN (x : double) : bool :=
  Z.eqb (exponentBits x) 2047 && negb (Z.eqb (fractionBits x) 0).

Inductive value : Type :=
| VUndefined
| VNull
| VBool (b : bool)
| VNumber (x : double)
| VString (s : string)
| VFunction (f : fnref)
| VRegExp (r : RegExp)
| VObject (o : nat).         (* any other object, e.g. a promise *)

(** [typeof v] *)
Definition typeof (v : value) : string :=
  match v with
  | VUndefined => "undefined"
  | VNull => "object"
  | VBool _ => "boolean"
  | VNumber _ => "number"
  | VString _ => "string"
  | VFunction _ => "function"
  | VRegExp _ => "object"
  | VObject _ => "object"
  end.

(** [v instanceof RegExp] *)
Definition instanceofRegExp (v : value) : bool :=
  match v with VRegExp _ => true | _ => false end.

(** ToBoolean: [undefined], [null], [false], [+0], [-0], [NaN] and the
    empty string are falsy; everything else is truthy. *)
Definition truthy (v : value) : bool :=
  match v with
  | VUndefined => false
  | VNull => false
  | VBool b => b
  | VNumber x => negb (isZero x || isNaN x)
  | VString s => negb (String.eqb s "")
  | VFunction _ => true
  | VRegExp _ => true
  | VObject _ => true
  end.

(** What the model reports for a call. *)
Inductive exn : Type :=
| TypeError (message : string)
| SyntaxError                (* thrown by [new RegExp] on a malformed pattern *)
| Thrown (v : value).        (* a value thrown by a subscriber *)

Inductive completion (A : Type) : Type :=
| Normal (a : A)
| Throw (e : exn)
| Beyond.                    (* pattern syntax outside the modelled fragment *)

Arguments Normal {A} a.
Arguments Throw {A} e.
Arguments Beyond {A}.

(** ** Pattern semantics *)

(** A match state is the unread suffix of the input (the end index is the
    input length minus the length of the suffix); a match result is a
    state or failure. *)
Definition MatchResult := option string.
Definition Continuation := string -> MatchResult.
Definition Matcher := string -> Continuation -> MatchResult.

Definition orElse (z : MatchResult) (other : MatchResult) : MatchResult :=
  match z with
  | Some y => Some y
  | None => other
  end.

(** Line terminators representable here: LF and CR. *)
Definition isLineTerminator (c : ascii) : bool :=
  Ascii.eqb c "010"%char || Ascii.eqb c "013"%char.

(** RepeatMatcher with min = 0 and max = infinity, greedy.  An iteration
    that consumes nothing is rejected, so the suffix shrinks at every
    round: [fuel] is the length of the suffix the repetition starts on. *)
Fixpoint RepeatMatcher (m : Matcher) (fuel : nat) (x : string) (c : Continuation)
  : MatchResult :=
  match fuel with
  | 0 => c x
  | S fuel' =>
      orElse
        (m x (fun y =>
                if Nat.ltb (String.length y) (String.length x)
                then RepeatMatcher m fuel' y c else None))
        (c x)
  end.

(** [matcher n r] is the matcher of [r] on an input of length [n]. *)
Fixpoint matcher (n : nat) (r : regex) : Matcher :=
  match r with
  | Empty => fun x c => c x
  | Chr ch =>
      fun x c =>
        match x with
        | String d y => if Ascii.eqb ch d then c y else None
        | EmptyString => None
        end
  | Dot =>
      fun x c =>
        match x with
        | String d y => if isLineTerminator d then None else c y
        | EmptyString => None
        end
  | Bol => fun x c => if Nat.eqb (String.length x) n then c x else None
  | Eol =>
      fun x c =>
        match x with
        | EmptyString => c x
        | String _ _ => None
        end
  | Seq a b => fun x c => matcher n a x (fun y => matcher n b y c)
  | Alt a b => fun x c => orElse (matcher n a x c) (matcher n b x c)
  | Star a => fun x c => RepeatMatcher (matcher n a) (String.length x) x c
  | Plus a =>
      fun x c =>
        matcher n a x (fun y => RepeatMatcher (matcher n a) (String.length y) y c)
  | Opt a =>
      fun x c =>
        orElse
          (matcher n a x (fun y =>
                        if Nat.ltb (String.length y) (String.length x) then c y else None))
          (c x)
  end.

(** One attempt at the position whose unread suffix is [x]. *)
Definition matchAt (r : regex) (input x : string) : MatchResult :=
  matcher (String.length input) r x (fun y => Some y).

(** The loop of RegExpBuiltinExec: try at the current position; on
    failure give up when sticky, else advance by one.  Returns the end
    index of the match. *)
Fixpoint scan (r : regex) (input : string) (y : bool) (x : string) : option nat :=
  match matchAt r input x with
  | Some rest => Some (String.length input - String.length rest)
  | None =>
      if y then None
      else match x with
           | EmptyString => None
           | String _ x' => scan r input y x'
           end
  end.

Fixpoint dropStr (i : nat) (s : string) : string :=
  match i, s with
  | 0, _ => s
  | S i', String _ s' => dropStr i' s'
  | S _, EmptyString => EmptyString
  end.

Definition setLastIndex (R : RegExp) (i : nat) : RegExp :=
  mkRegExp (pattern R) (global R) (sticky R) i.

(** RegExpBuiltinExec, returning the end index of the match (or failure)
    and the RegExp object after the call. *)
Definition RegExpBuiltinExec (R : RegExp) (S : string) : option nat * RegExp :=
  let stateful := global R || sticky R in
  let start := if stateful then lastIndex R else 0 in
  if Nat.ltb (String.length S) start then
    (None, if stateful then setLastIndex R 0 else R)
  else
    match scan (pattern R) S (sticky R) (dropStr start S) with
    | None => (None, if stateful then setLastIndex R 0 else R)
    | Some e => (Some e, if stateful then setLastIndex R e else R)
    end.

(** [R.test(S)] *)
Definition test (R : RegExp) (S : string) : bool * RegExp :=
  match RegExpBuiltinExec R S with
  | (Some _, R') => (true, R')
  | (None, R') => (false, R')
  end.

(** ** [new RegExp(source)]: parsing the pattern *)

Inductive charKind : Type :=
| KOpen | KClose | KBar | KStar | KPlus | KQuest | KBackslash
| KDot | KCaret | KDollar | KBracket | KBrace | KOther.

Definition classify (c : ascii) : charKind :=
  if Ascii.eqb c "(" then KOpen
  else if Ascii.eqb c ")" then KClose
  else if Ascii.eqb c "|" then KBar
  else if Ascii.eqb c "*" then KStar
  else if Ascii.eqb c "+" then KPlus
  else if Ascii.eqb c "?" then KQuest
  else if Ascii.eqb c "\" then KBackslash
  else if Ascii.eqb c "." then KDot
  else if Ascii.eqb c "^" then KCaret
  else if Ascii.eqb c "$" then KDollar
  else if Ascii.eqb c "[" then KBracket
  else if Ascii.eqb c "{" then KBrace
  else KOther.

(** SyntaxCharacter :: one of ^ $ \ . * + ? ( ) [ ] { } | *)
Definition isSyntaxCharacter (c : ascii) : bool :=
  existsb (Ascii.eqb c)
    ["^"; "$"; "\"; "."; "*"; "+"; "?"; "("; ")"; "["; "]"; "{"; "}"; "|"]%char.

(** A parsed term remembers whether a quantifier may follow it. *)
Inductive term : Type :=
| TAtom (r : regex)
| TAssertion (r : regex)
| TQuantified (r : regex).

Definition termRegex (t : term) : regex :=
  match t with
  | TAtom r => r
  | TAssertion r => r
  | TQuantified r => r
  end.

(** A disjunction being read: the alternatives already closed by [|] and
    the terms of the current alternative, both most recent first. *)
Record frame : Type := mkFrame {
  alternatives : list regex;
  terms : list term
}.

Definition emptyFrame : frame := mkFrame [] [].

Definition alternativeOf (ts : list term) : regex :=
  fold_left (fun acc t => Seq (termRegex t) acc) ts Empty.

Definition disjunctionOf (f : frame) : regex :=
  fold_left (fun acc a => Alt a acc) (alternatives f) (alternativeOf (terms f)).

Definition pushTerm (t : term) (f : frame) : frame :=
  mkFrame (alternatives f) (t :: terms f).

Definition closeAlternative (f : frame) : frame :=
  mkFrame (alternativeOf (terms f) :: alternatives f) [].

Definition quantify (q : regex -> regex) (f : frame) : option frame :=
  match terms f with
  | TAtom r :: ts => Some (mkFrame (alternatives f) (TQuantified (q r) :: ts))
  | _ => None
  end.

Definition startsWith (c : ascii) (s : string) : bool :=
  match s with
  | String d _ => Ascii.eqb c d
  | EmptyString => false
  end.

(** The pattern parser.  [cur] is the innermost open disjunction and
    [stack] the enclosing ones.  Groups group only (there are no
    backreferences in the fragment).  Lazy quantifiers, character
    classes, braced quantifiers, lookaround and the escapes other than
    an escaped syntax character or slash are outside the fragment. *)
Fixpoint parsePattern (s : string) (cur : frame) (stack : list frame)
  : completion regex :=
  match s with
  | EmptyString =>
      match stack with
      | [] => Normal (disjunctionOf cur)
      | _ :: _ => Throw SyntaxError             (* unterminated group *)
      end
  | String ch rest =>
      match classify ch with
      | KOpen =>
          match rest with
          | String q rest' =>
              if Ascii.eqb q "?" then
                match rest' with
                | String k rest'' =>
                    if Ascii.eqb k ":"
                    then parsePattern rest'' emptyFrame (cur :: stack)
                    else Beyond
                | EmptyString => Throw SyntaxError
                end
              else parsePattern rest emptyFrame (cur :: stack)
          | EmptyString => Throw SyntaxError
          end
      | KClose =>
          match stack with
          | [] => Throw SyntaxError              (* unmatched ) *)
          | parent :: stack' =>
              parsePattern rest (pushTerm (TAtom (disjunctionOf cur)) parent) stack'
          end
      | KBar => parsePattern rest (closeAlternative cur) stack
      | KStar =>
          match quantify Star cur with
          | Some cur' => if startsWith "?" rest then Beyond else parsePattern rest cur' stack
          | None => Throw SyntaxError            (* nothing to repeat *)
          end
      | KPlus =>
          match quantify Plus cur with
          | Some cur' => if startsWith "?" rest then Beyond else parsePattern rest cur' stack
          | None => Throw SyntaxError
          end
      | KQuest =>
          match quantify Opt cur with
          | Some cur' => if startsWith "?" rest then Beyond else parsePattern rest cur' stack
          | None => Throw SyntaxError
          end
      | KBackslash =>
          match rest with
          | String e rest' =>
              if isSyntaxCharacter e || Ascii.eqb e "/"
              then parsePattern rest' (pushTerm (TAtom (Chr e)) cur) stack
              else Beyond
          | EmptyString => Throw SyntaxError     (* \ at end of pattern *)
          end
      | KDot => parsePattern rest (pushTerm (TAtom Dot) cur) stack
      | KCaret => parsePattern rest (pushTerm (TAssertion Bol) cur) stack
      | KDollar => parsePattern rest (pushTerm (TAssertion Eol) cur) stack
      | KBracket => Beyond
      | KBrace => Beyond
      | KOther => parsePattern rest (pushTerm (TAtom (Chr ch)) cur) stack
      end
  end.

(** [new RegExp(source)], no flags. *)
Definition newRegExp (source : string) : completion RegExp :=
  match parsePattern source emptyFrame [] with
  | Normal r => Normal (mkRegExp r false false 0)
  | Throw e => Throw e
  | Beyond => Beyond
  end.

(** ** From a topic specification to a RegExp *)

(** [s.replace(/([^\\])\*+/g, '$1.*')]: every run of asterisks that
    follows a character other than a backslash is replaced, together with
    that character, by the character followed by [.*].  Matches are found
    left to right and do not overlap; [skipping] is true while the
    asterisks of the run just replaced are being consumed. *)
Fixpoint replaceStars (skipping : bool) (s : string) : string :=
  match s with
  | EmptyString => EmptyString
  | String c rest =>
      if skipping && Ascii.eqb c "*" then replaceStars true rest
      else
        match rest with
        | String d rest' =>
            if Ascii.eqb d "*" && negb (Ascii.eqb c "\")
            then String c (".*" ++ replaceStars true rest')
            else String c (replaceStars false rest)
        | EmptyString => String c EmptyString
        end
  end.

(** [s.replace(/^\*/, '.*')] *)
Definition replaceLeadingStar (s : string) : string :=
  match s with
  | String c rest => if Ascii.eqb c "*" then ".*" ++ rest else s
  | EmptyString => s
  end.

Definition doubleQuote : string := String (ascii_of_nat 34) EmptyString.

Definition topicsTypeError : exn :=
  TypeError ("Expected topic to be a string (with optional " ++ doubleQuote
             ++ "*" ++ doubleQuote ++ " wildcards) or a regex.").

(** The first half of [forEachTopic]: "make sure `topics` is a regex". *)
Definition toRegExp (topics : value) : completion RegExp :=
  match topics with
  | VRegExp R => Normal R
  | VString s =>
      newRegExp ("^" ++ replaceLeadingStar (replaceStars false s) ++ "$")
  | _ => Throw topicsTypeError
  end.

(** ** The subscriptions namespace *)

(** [this._pubsub]: a hash of subscriber arrays by topic, in property
    creation order. *)
Definition registry := list (string * list fnref).

(** [namespace[topic]] *)
Fixpoint getProp (namespace : registry) (topic : string) : option (list fnref) :=
  match namespace with
  | [] => None
  | (k, subscribers) :: namespace' =>
      if String.eqb k topic then Some subscribers else getProp namespace' topic
  end.

(** [namespace[topic] = subscribers]: an existing property keeps its
    place, a new one is created last.  Also used for the in-place
    updates of the array stored under [topic] ([push], [splice]). *)
Fixpoint setProp (namespace : registry) (topic : string) (subscribers : list fnref)
  : registry :=
  match namespace with
  | [] => [(topic, subscribers)]
  | (k, old) :: namespace' =>
      if String.eqb k topic then (k, subscribers) :: namespace'
      else (k, old) :: setProp namespace' topic subscribers
  end.

(** [delete namespace[topic]] *)
Fixpoint deleteProp (namespace : registry) (topic : string) : registry :=
  match namespace with
  | [] => []
  | (k, subscribers) :: namespace' =>
      if String.eqb k topic then deleteProp namespace' topic
      else (k, subscribers) :: deleteProp namespace' topic
  end.

(** A context: any object, of which only the hidden property [_pubsub]
    and the [[Extensible]] internal slot matter.  [None] is a context
    that has no such property yet.  A property can be added only to an
    extensible object: [Object.preventExtensions], [Object.seal] and
    [Object.freeze] make an object non-extensible for good.  The
    namespace stored in [_pubsub] is an object of its own, which stays
    extensible whatever is done to the context. *)
Record Context : Type := mkContext {
  _pubsub : option registry;
  extensible : bool
}.

(** *** Property enumeration order *)

Definition isDigit (c : ascii) : bool :=
  (48 <=? nat_of_ascii c)%nat && (nat_of_ascii c <=? 57)%nat.

Fixpoint digitsValue (acc : N) (s : string) : option N :=
  match s with
  | EmptyString => Some acc
  | String c rest =>
      if isDigit c
      then digitsValue (acc * 10 + N.of_nat (nat_of_ascii c - 48)) rest
      else None
  end.

(** An array index is a canonical numeric string (decimal digits, no
    leading zero) whose value is at most 2^32 - 2. *)
Definition arrayIndex (key : string) : option N :=
  match key with
  | EmptyString => None
  | String c rest =>
      if Ascii.eqb c "0" then
        match rest with
        | EmptyString => Some 0%N
        | String _ _ => None
        end
      else
        match digitsValue 0 key with
        | Some v => if (v <=? 4294967294)%N then Some v else None
        | None => None
        end
  end.

Fixpoint insertIndex (i : N) (key : string) (l : list (N * string))
  : list (N * string) :=
  match l with
  | [] => [(i, key)]
  | (j, key') :: l' =>
      if (i <? j)%N then (i, key) :: l else (j, key') :: insertIndex i key l'
  end.

Fixpoint indexKeys (keys : list string) : list (N * string) :=
  match keys with
  | [] => []
  | key :: keys' =>
      match arrayIndex key with
      | Some i => insertIndex i key (indexKeys keys')
      | None => indexKeys keys'
      end
  end.

Definition isNamedKey (key : string) : bool :=
  match arrayIndex key with
  | Some _ => false
  | None => true
  end.

(** The keys visited by [for (var topic in namespace)].  The loop
    enumerates the own properties of an ordinary object in the order of
    OrdinaryOwnPropertyKeys (ECMA-262): the keys that are array indices
    in ascending numeric order, then the other string keys in the order
    in which the properties were created. *)
Definition forInKeys (namespace : registry) : list string :=
  let keys := map fst namespace in
  map snd (indexKeys keys) ++ filter isNamedKey keys.

(** ** [forEachTopic] *)

Section ForEachTopic.

(** What the callback reads and writes besides the namespace. *)
Variable S : Type.

(** [fn.call(this, namespace[topic], topic, namespace)] *)
Variable fn :
  list fnref -> string -> registry -> S -> completion unit * (registry * S).

(** The [for ... in] loop.  A property deleted before its turn is not
    visited; the array found under a key is an object, hence truthy. *)
Fixpoint forIn (keys : list string) (topics : RegExp) (namespace : registry) (s : S)
  : completion unit * (registry * S) :=
  match keys with
  | [] => (Normal tt, (namespace, s))
  | topic :: keys' =>
      match getProp namespace topic with
      | None => forIn keys' topics namespace s
      | Some subscribers =>
          let (matched, topics') := test topics topic in
          if matched then
            match fn subscribers topic namespace s with
            | (Normal _, (namespace', s')) => forIn keys' topics' namespace' s'
            | (Throw e, st) => (Throw e, st)
            | (Beyond, st) => (Beyond, st)
            end
          else forIn keys' topics' namespace s
      end
  end.

Definition forEachTopic (this : Context) (topics : value) (s : S)
  : completion unit * (Context * S) :=
  match _pubsub this with
  | None => (Normal tt, (this, s))
  | Some namespace =>
      match toRegExp topics with
      | Throw e => (Throw e, (this, s))
      | Beyond => (Beyond, (this, s))
      | Normal re =>
          match forIn (forInKeys namespace) re namespace s with
          | (c, (namespace', s')) =>
              (c, (mkContext (Some namespace') (extensible this), s'))
          end
      end
  end.

End ForEachTopic.

Arguments forIn {S} fn keys topics namespace s.
Arguments forEachTopic {S} fn this topics s.

(** ** [subscribe] *)

(** [subscribers.indexOf(subscriber)], with strict equality: only a
    function can be found in an array of functions. *)
Fixpoint indexOfRef (subscribers : list fnref) (f : fnref) : option nat :=
  match subscribers with
  | [] => None
  | g :: subscribers' =>
      if Nat.eqb g f then Some 0
      else match indexOfRef subscribers' f with
           | Some i => Some (Datatypes.S i)
           | None => None
           end
  end.

Definition indexOf (subscribers : list fnref) (subscriber : value) : option nat :=
  match subscriber with
  | VFunction f => indexOfRef subscribers f
  | _ => None
  end.

(** What [Object.defineProperty] throws when the object is not
    extensible and has no such property (the wording of the message is
    the engine's own; this is V8's). *)
Definition notExtensibleTypeError : exn :=
  TypeError "Cannot define property _pubsub, object is not extensible".

Definition subscribe (this : Context) (topic subscriber : value)
  : completion unit * Context :=
  match topic with
  | VString t =>
      match subscriber with
      | VFunction f =>
          (* if (!this._pubsub) Object.defineProperty(this, '_pubsub', ...);
             var namespace = this._pubsub *)
          match
            match _pubsub this with
            | Some namespace => Normal namespace
            | None =>
                if extensible this then Normal []
                else Throw notExtensibleTypeError
            end
          with
          | Normal namespace =>
              let subscribers :=
                match getProp namespace t with
                | Some subscribers => subscribers
                | None => []
                end in
              let subscriberNotFound :=
                match indexOf subscribers subscriber with
                | Some _ => false
                | None => true
                end in
              (Normal tt,
               mkContext
                 (Some (setProp namespace t
                          (if subscriberNotFound then subscribers ++ [f]
                           else subscribers)))
                 (extensible this))
          | Throw e => (Throw e, this)
          | Beyond => (Beyond, this)
          end
      | _ => (Throw (TypeError "Expected subscriber to be a function."), this)
      end
  | _ => (Throw (TypeError "Expected topic to be a string."), this)
  end.

(** ** [unsubscribe] *)

(** [subscribers.splice(i, 1)] *)
Fixpoint splice1 (subscribers : list fnref) (i : nat) : list fnref :=
  match subscribers, i with
  | [], _ => []
  | _ :: subscribers', 0 => subscribers'
  | g :: subscribers', Datatypes.S i' => g :: splice1 subscribers' i'
  end.

Definition unsubscribeCallback (subscriber : value)
    (subscribers : list fnref) (topic : string) (subscriptions : registry) (s : unit)
  : completion unit * (registry * unit) :=
  if truthy subscriber then
    match indexOf subscribers subscriber with
    | Some subscriberIndex =>
        (Normal tt, (setProp subscriptions topic (splice1 subscribers subscriberIndex), s))
    | None => (Normal tt, (subscriptions, s))
    end
  else (Normal tt, (deleteProp subscriptions topic, s)).

Definition unsubscribe (this : Context) (topics subscriber : value)
  : completion unit * Context :=
  match forEachTopic (unsubscribeCallback subscriber) this topics tt with
  | (c, (this', _)) => (c, this')
  end.

(** ** [publish] *)

(** How a call of a subscriber ends. *)
Inductive returned : Type :=
| Return (v : value)
| Raise (v : value).

Section Publish.

(** The world outside the contexts, on which subscribers act. *)
Variable W : Type.

(** [f.call(this, message)] *)
Variable invoke : fnref -> Context -> value -> W -> returned * W.

(** The local [results] array, the subscribers called so far (kept for
    the statements below; the code has no such log), and the world. *)
Record pstate : Type := mkPstate {
  results : list value;
  invoked : list fnref;
  world : W
}.

(** [for (var i = 0; i < subscribers.length; ++i)
       results.push(subscribers[i].call(this, message));] *)
Fixpoint callSubscribers (this : Context) (message : value)
    (subscribers : list fnref) (st : pstate) : completion unit * pstate :=
  match subscribers with
  | [] => (Normal tt, st)
  | f :: subscribers' =>
      match invoke f this message (world st) with
      | (Return v, w) =>
          callSubscribers this message subscribers'
            (mkPstate (results st ++ [v]) (invoked st ++ [f]) w)
      | (Raise v, w) =>
          (Throw (Thrown v), mkPstate (results st) (invoked st ++ [f]) w)
      end
  end.

Definition publishCallback (this : Context) (message : value)
    (subscribers : list fnref) (topic : string) (subscriptions : registry)
    (st : pstate) : completion unit * (registry * pstate) :=
  match callSubscribers this message subscribers st with
  | (c, st') => (c, (subscriptions, st'))
  end.

(** [publish] returns the [results] array when it completes normally.
    The second component is the state at the end of the call. *)
Definition publish (this : Context) (topics message : value) (w : W)
  : completion (list value) * pstate :=
  match forEachTopic (publishCallback this message) this topics (mkPstate [] [] w) with
  | (Normal _, (_, st)) => (Normal (results st), st)
  | (Throw e, (_, st)) => (Throw e, st)
  | (Beyond, (_, st)) => (Beyond, st)
  end.

End Publish.

Arguments results {W} p.
Arguments invoked {W} p.
Arguments world {W} p.
Arguments mkPstate {W} results invoked world.

(** ** Notions used in the statements *)

(** The keys on which [forEachTopic] calls its callback, in order: the
    enumerated keys that [topics.test] accepts, the RegExp object being
    threaded from one call of [test] to the next. *)
Fixpoint matching (topics : RegExp) (keys : list string) : list string :=
  match keys with
  | [] => []
  | key :: keys' =>
      let (matched, topics') := test topics key in
      if matched then key :: matching topics' keys' else matching topics' keys'
  end.

(** Does the specification select the key?  ([None]: the specification
    is rejected or outside the modelled fragment.) *)
Definition selects (topics : value) (key : string) : option bool :=
  match toRegExp topics with
  | Normal re => Some (fst (test re key))
  | _ => None
  end.

Definition memKey (key : string) (keys : list string) : bool :=
  existsb (String.eqb key) keys.

Fixpoint allChars (p : ascii -> bool) (s : string) : bool :=
  match s with
  | EmptyString => true
  | String c rest => p c && allChars p rest
  end.

Fixpoint hasChar (c : ascii) (s : string) : bool :=
  match s with
  | EmptyString => false
  | String d rest => Ascii.eqb c d || hasChar c rest
  end.


(** A character with no meaning of its own in a pattern. *)
Definition ordinary (c : ascii) : bool := negb (isSyntaxCharacter c).

(** The pattern that matches [text] character by character, then [tail]. *)
Fixpoint literal (text : string) (tail : regex) : regex :=
  match text with
  | EmptyString => tail
  | String c rest => Seq (Chr c) (literal rest tail)
  end.

Fixpoint pushLiteral (text : string) (ts : list term) : list term :=
  match text with
  | EmptyString => ts
  | String c rest => pushLiteral rest (TAtom (Chr c) :: ts)
  end.

(** [text] with a backslash put before each of its asterisks. *)
Fixpoint escapeStars (text : string) : string :=
  match text with
  | EmptyString => EmptyString
  | String c rest =>
      if Ascii.eqb c "*" then String "\" (String "*" (escapeStars rest))
      else String c (escapeStars rest)
  end.

Definition ordinaryOrStar (c : ascii) : bool := ordinary c || Ascii.eqb c "*".

Definition isSome {A : Type} (o : option A) : bool :=
  match o with
  | Some _ => true
  | None => false
  end.

(** The registry of a context, empty when the context has none. *)
Definition registryOf (this : Context) : registry :=
  match _pubsub this with
  | Some namespace => namespace
  | None => []
  end.

(** The subscribers bound to a key (none when the key is absent). *)
Definition subscribersOf (namespace : registry) (key : string) : list fnref :=
  match getProp namespace key with
  | Some subscribers => subscribers
  | None => []
  end.

(** The subscribers a [publish] meets, in the order it meets them: the
    selected keys in enumeration order, and under each key its array
    from first to last. *)
Definition visited (namespace : registry) (topics : RegExp) : list fnref :=
  flat_map (subscribersOf namespace) (matching topics (forInKeys namespace)).

(** The same with the keys taken in creation order instead. *)
Definition visitedInCreationOrder (namespace : registry) (topics : RegExp)
  : list fnref :=
  flat_map (subscribersOf namespace) (matching topics (map fst namespace)).

(** What [unsubscribe] leaves of an array from which [subscriber] is to
    be removed. *)
Definition prune (subscriber : value) (subscribers : list fnref) : list fnref :=
  match indexOf subscribers subscriber with
  | Some i => splice1 subscribers i
  | None => subscribers
  end.

(** [subs'] is [subs] without its first occurrence of [f], or [subs]
    itself when [f] does not occur in it. *)
Definition removedFrom (f : fnref) (subs subs' : list fnref) : Prop :=
  (~ In f subs /\ subs' = subs) \/
  (exists l1 l2, subs = l1 ++ f :: l2 /\ ~ In f l1 /\ subs' = l1 ++ l2).

(** Property names are unique, and no array holds a reference twice. *)
Definition wfRegistry (namespace : registry) : Prop :=
  NoDup (map fst namespace) /\ Forall (fun e => NoDup (snd e)) namespace.

Definition wfContext (this : Context) : Prop :=
  match _pubsub this with
  | Some namespace => wfRegistry namespace
  | None => True
  end.

(** Can a subscription be recorded on the context?  It has a registry
    already, or one can be added to it. *)
Definition subscribable (this : Context) : bool :=
  match _pubsub this with
  | Some _ => true
  | None => extensible this
  end.

(** The contexts the methods can build from an extensible object that
    has no [_pubsub] property. *)
Inductive reachable : Context -> Prop :=
| reach_fresh : reachable (mkContext None true)
| reach_subscribe this topic subscriber :
    reachable this -> reachable (snd (subscribe this topic subscriber))
| reach_unsubscribe this topics subscriber :
    reachable this -> reachable (snd (unsubscribe this topics subscriber)).

Section Returning.

Variable W : Type.
Variable invoke : fnref -> Context -> value -> W -> returned * W.
Variable this : Context.
Variable message : value.

(** [returning fs w vs w']: called one after the other from the world
    [w], the functions [fs] all return, the values [vs] in this order,
    and leave the world [w']. *)
Inductive returning : list fnref -> W -> list value -> W -> Prop :=
| returning_nil w : returning [] w [] w
| returning_cons f fs w v w1 vs w2 :
    invoke f this message w = (Return v, w1) ->
    returning fs w1 vs w2 ->
    returning (f :: fs) w (v :: vs) w2.

End Returning.

(** ** Sample values *)

(** The doubles 3, +0, -0 and NaN. *)
Definition three : double := 0x4008000000000000%Z.
Definition positiveZero : double := 0%Z.
Definition negativeZero : double := 0x8000000000000000%Z.
Definition notANumber : double := 0x7FF8000000000000%Z.

(** ** Sample subscribers *)

(** Every function returns an object of its own (say, a pending
    promise) and logs its call in the world. *)
Definition logging (f : fnref) (this : Context) (message : value) (w : list fnref)
  : returned * list fnref :=
  (Return (VObject f), w ++ [f]).

(** As [logging], but the function 9 throws. *)
Definition failing (f : fnref) (this : Context) (message : value) (w : list fnref)
  : returned * list fnref :=
  if Nat.eqb f 9 then (Raise (VString "boom"), w ++ [f])
  else (Return (VObject f), w ++ [f]).

(** An ordinary object on which no method has been called, and the
    same object after [Object.freeze]. *)
Definition fresh : Context := mkContext None true.

Definition frozen : Context := mkContext None false.

Definition subscribed (this : Context) (topic : string) (f : fnref) : Context :=
  snd (subscribe this (VString topic) (VFunction f)).

(** ** Sample contexts *)

(** [subscribe('b', f1); subscribe('1', f2)] *)
Definition numbered : Context := subscribed (subscribed fresh "b" 1) "1" 2.

(** [subscribe('b', f1); subscribe('b', f9); subscribe('b', f3)] *)
Definition trio : Context :=
  subscribed (subscribed (subscribed fresh "b" 1) "b" 9) "b" 3.

(** [subscribe('b', f1); subscribe('c', f2); subscribe('b', f3)] *)
Definition pair : Context :=
  subscribed (subscribed (subscribed fresh "b" 1) "c" 2) "b" 3.



(** The pattern of [new RegExp('^.*$')], which the specification ['*']
    compiles to. *)
Definition anything : RegExp :=
  mkRegExp (Seq Bol (Seq (Star Dot) (Seq Eol Empty))) false false 0.

(** The pattern of [new RegExp('^b$')]. *)
Definition onlyB : RegExp :=
  mkRegExp (Seq Bol (Seq (Chr "b") (Seq Eol Empty))) false false 0.

(** ** Wildcard matching, as the documentation describes it *)

(** [starOf g key]: some suffix of [key], reached by skipping characters
    that are not line terminators, satisfies [g]. *)
Fixpoint starOf (g : string -> bool) (key : string) : bool :=
  g key ||
  match key with
  | EmptyString => false
  | String d key' => negb (isLineTerminator d) && starOf g key'
  end.

(** [glob spec key]: the whole of [key] conforms to [spec], in which an
    asterisk stands for any run of characters (line terminators
    excepted, as for the [.] the code compiles it to) and every other
    character stands for itself. *)
Fixpoint glob (spec : string) : string -> bool :=
  match spec with
  | EmptyString =>
      fun key =>
        match key with
        | EmptyString => true
        | String _ _ => false
        end
  | String c rest =>
      if Ascii.eqb c "*" then starOf (glob rest)
      else
        fun key =>
          match key with
          | EmptyString => false
          | String d key' => Ascii.eqb c d && glob rest key'
          end
  end.

(** The pieces of the pattern source that the two [replace] calls make
    of a specification without backslash. *)
Inductive token : Type :=
| Lit (c : ascii)
| Wild.

Definition tokenOf (c : ascii) : token :=
  if Ascii.eqb c "*" then Wild else Lit c.

Fixpoint tokensOf (skipping : bool) (s : string) : list token :=
  match s with
  | EmptyString => []
  | String c rest =>
      if skipping && Ascii.eqb c "*" then tokensOf true rest
      else
        match rest with
        | String d rest' =>
            if Ascii.eqb d "*"
            then tokenOf c :: Wild :: tokensOf true rest'
            else tokenOf c :: tokensOf false rest
        | EmptyString => [tokenOf c]
        end
  end.

Fixpoint render (ts : list token) : string :=
  match ts with
  | [] => EmptyString
  | Lit c :: ts' => String c (render ts')
  | Wild :: ts' => String "." (String "*" (render ts'))
  end.

Fixpoint tokensRegex (ts : list token) (tail : regex) : regex :=
  match ts with
  | [] => tail
  | Lit c :: ts' => Seq (Chr c) (tokensRegex ts' tail)
  | Wild :: ts' => Seq (Star Dot) (tokensRegex ts' tail)
  end.

Fixpoint pushTokens (ts : list token) (acc : list term) : list term :=
  match ts with
  | [] => acc
  | Lit c :: ts' => pushTokens ts' (TAtom (Chr c) :: acc)
  | Wild :: ts' => pushTokens ts' (TQuantified (Star Dot) :: acc)
  end.

Fixpoint globTokens (ts : list token) : string -> bool :=
  match ts with
  | [] =>
      fun key =>
        match key with
        | EmptyString => true
        | String _ _ => false
        end
  | Lit c :: ts' =>
      fun key =>
        match key with
        | EmptyString => false
        | String d key' => Ascii.eqb c d && globTokens ts' key'
        end
  | Wild :: ts' => starOf (globTokens ts')
  end.

Definition literalToken (t : token) : bool :=
  match t with
  | Lit c => ordinary c
  | Wild => true
  end.

(** ** Escaped asterisks, as the documentation describes them *)


















(** ** More notions used in the statements *)

Definition notLineTerminator (c : ascii) : bool := negb (isLineTerminator c).

(** A specification whose [test] keeps no state from one key to the
    next: a string (compiled afresh, without flags, at every call), or
    a RegExp object that has neither the [g] nor the [y] flag. *)
Definition stateless (topics : value) : bool :=
  match topics with
  | VRegExp R => negb (global R || sticky R)
  | _ => true
  end.

(** A call that deletes no entry of the registry: [subscribe] with a
    string and a function, or [unsubscribe] with a function as its
    subscriber. *)
Inductive call : Type :=
| Subscribe (topic : string) (subscriber : fnref)
| Unsubscribe (topics : value) (subscriber : fnref).

Definition perform (this : Context) (c : call) : Context :=
  match c with
  | Subscribe topic subscriber =>
      snd (subscribe this (VString topic) (VFunction subscriber))
  | Unsubscribe topics subscriber =>
      snd (unsubscribe this topics (VFunction subscriber))
  end.

(** The context after the calls of [history], made one after the other
    (a call that throws changes nothing, and the next one is made). *)
Definition replay (history : list call) (this : Context) : Context :=
  fold_left perform history this.

Definition noteTopic (seen : list string) (c : call) : list string :=
  match c with
  | Subscribe topic _ => if memKey topic seen then seen else seen ++ [topic]
  | Unsubscribe _ _ => seen
  end.

(** The topics subscribed to in [history], each at the place of its
    first subscription. *)
Definition firstSubscribed (history : list call) : list string :=
  fold_left noteTopic history [].

(** [subscribe('b', f1); subscribe('c', f2); subscribe('b', f3);
     unsubscribe('c', f2); subscribe('a', f4)] *)
Definition calls : list call :=
  [Subscribe "b" 1; Subscribe "c" 2; Subscribe "b" 3;
   Unsubscribe (VString "c") 2; Subscribe "a" 4].

(** [subscribe('b', f1); subscribe('a' + LF + 'b', f2)] *)
Definition multiline : Context :=
  subscribed (subscribed fresh "b" 1) (String "a" (String "010" "b")) 2.

(** * Properties *)

(** ** The RegExp model *)

Lemma test_flagless (r : regex) (i : nat) (S : string) :
  test (mkRegExp r false false i) S
  = (isSome (scan r S false S), mkRegExp r false false i).
Proof.
  unfold test, RegExpBuiltinExec; simpl.
  destruct (scan r S false S); reflexivity.
Qed.

Lemma matchAt_Bol (r : regex) (input x : string) :
  matchAt (Seq Bol r) input x
  = if Nat.eqb (String.length x) (String.length input)
    then matcher (String.length input) r x (fun y => Some y)
    else None.
Proof. reflexivity. Qed.

Lemma scan_unfold (r : regex) (input : string) (y : bool) (x : string) :
  scan r input y x
  = match matchAt r input x with
    | Some rest => Some (String.length input - String.length rest)
    | None =>
        if y then None
        else match x with
             | EmptyString => None
             | String _ x' => scan r input y x'
             end
    end.
Proof. destruct x; reflexivity. Qed.

Lemma scan_Bol_later (r : regex) (input x : string) :
  String.length x < String.length input ->
  scan (Seq Bol r) input false x = None.
Proof.
  induction x as [|d x IH]; intros Hlt; rewrite scan_unfold, matchAt_Bol.
  - destruct (Nat.eqb_spec (String.length "") (String.length input)) as [E|_];
      [simpl in E; lia | reflexivity].
  - destruct (Nat.eqb_spec (String.length (String d x)) (String.length input))
      as [E|_]; [lia |].
    apply IH; simpl in Hlt; lia.
Qed.

(** A pattern that starts with [^] can only match from index 0. *)
Lemma scan_anchored (r : regex) (input : string) :
  scan (Seq Bol r) input false input
  = match matcher (String.length input) r input (fun y => Some y) with
    | Some rest => Some (String.length input - String.length rest)
    | None => None
    end.
Proof.
  rewrite scan_unfold, matchAt_Bol, Nat.eqb_refl.
  destruct (matcher (String.length input) r input (fun y => Some y));
    [reflexivity |].
  destruct input as [|d x]; [reflexivity |].
  apply scan_Bol_later; simpl; lia.
Qed.

Lemma matcher_literal_Eol (text key : string) (n : nat) :
  matcher n (literal text (Seq Eol Empty)) key (fun y => Some y)
  = if String.eqb key text then Some EmptyString else None.
Proof.
  revert key; induction text as [|c text IH]; intros key; simpl.
  - destruct key; reflexivity.
  - destruct key as [|d key]; simpl; [reflexivity |].
    rewrite (Ascii.eqb_sym c d).
    destruct (Ascii.eqb d c); [apply IH | reflexivity].
Qed.

Lemma alternativeOf_pushLiteral (text : string) (ts : list term) (acc : regex) :
  fold_left (fun acc t => Seq (termRegex t) acc) (pushLiteral text ts) acc
  = fold_left (fun acc t => Seq (termRegex t) acc) ts (literal text acc).
Proof.
  revert ts; induction text as [|c text IH]; intros ts; simpl; [reflexivity |].
  rewrite IH; reflexivity.
Qed.

Lemma ordinary_not (c d : ascii) :
  ordinary c = true -> isSyntaxCharacter d = true -> Ascii.eqb c d = false.
Proof.
  intros Hc Hd; destruct (Ascii.eqb_spec c d) as [->|]; [|reflexivity].
  unfold ordinary in Hc; rewrite Hd in Hc; discriminate.
Qed.

Lemma classify_ordinary (c : ascii) : ordinary c = true -> classify c = KOther.
Proof.
  intros H; unfold classify.
  repeat match goal with
         | |- context [Ascii.eqb c ?d] => rewrite (ordinary_not c d H eq_refl)
         end.
  reflexivity.
Qed.

(** The parser reads an escaped text as the literal characters. *)
Lemma parsePattern_escapeStars (text s' : string) (alts : list regex)
    (ts : list term) (stack : list frame) :
  allChars ordinaryOrStar text = true ->
  parsePattern (escapeStars text ++ s') (mkFrame alts ts) stack
  = parsePattern s' (mkFrame alts (pushLiteral text ts)) stack.
Proof.
  revert ts; induction text as [|c text IH]; intros ts Hall; simpl in *;
    [reflexivity |].
  apply andb_prop in Hall as [Hc Hall].
  destruct (Ascii.eqb_spec c "*") as [->|Hne]; simpl.
  - apply IH; assumption.
  - unfold ordinaryOrStar in Hc.
    apply orb_prop in Hc as [Hc|Hc].
    + rewrite (classify_ordinary _ Hc). apply IH; assumption.
    + apply Ascii.eqb_eq in Hc; contradiction.
Qed.

(** No asterisk of an escaped text is rewritten by the first [replace]. *)
Lemma replaceStars_escapeStars (text : string) :
  allChars ordinaryOrStar text = true ->
  replaceStars false (escapeStars text) = escapeStars text.
Proof.
  induction text as [|c text IH]; intros Hall; simpl in *; [reflexivity |].
  apply andb_prop in Hall as [Hc Hall].
  specialize (IH Hall).
  assert (Hhead : forall d rest, escapeStars text = String d rest ->
                                 Ascii.eqb d "*" = false).
  { intros d rest E. destruct text as [|e text']; simpl in E; [discriminate |].
    destruct (Ascii.eqb_spec e "*").
    - inversion E; reflexivity.
    - inversion E; subst. apply Ascii.eqb_neq; assumption. }
  destruct (Ascii.eqb_spec c "*") as [->|Hne]; simpl.
  - f_equal. destruct (escapeStars text) as [|d rest] eqn:E; [reflexivity |].
    rewrite (Hhead d rest eq_refl); simpl. f_equal. exact IH.
  - destruct (escapeStars text) as [|d rest] eqn:E; [reflexivity |].
    rewrite (Hhead d rest eq_refl); simpl. f_equal. exact IH.
Qed.

Lemma replaceLeadingStar_escapeStars (text : string) :
  replaceLeadingStar (escapeStars text) = escapeStars text.
Proof.
  destruct text as [|c text]; simpl; [reflexivity |].
  destruct (Ascii.eqb_spec c "*") as [->|Hne]; simpl; [reflexivity |].
  apply Ascii.eqb_neq in Hne; rewrite Hne; reflexivity.
Qed.

(** A specification whose asterisks are all escaped and whose other
    characters are ordinary compiles to the anchored literal pattern. *)
Lemma toRegExp_escapeStars (text : string) :
  allChars ordinaryOrStar text = true ->
  toRegExp (VString (escapeStars text))
  = Normal (mkRegExp (Seq Bol (literal text (Seq Eol Empty))) false false 0).
Proof.
  intros Hall; unfold toRegExp, newRegExp.
  rewrite (replaceStars_escapeStars _ Hall), replaceLeadingStar_escapeStars.
  simpl. unfold pushTerm; simpl.
  rewrite (parsePattern_escapeStars text "$" [] [TAssertion Bol] [] Hall).
  simpl. unfold disjunctionOf, alternativeOf, pushTerm; simpl.
  rewrite alternativeOf_pushLiteral; reflexivity.
Qed.

Lemma test_anchored_literal (text key : string) (i : nat) :
  fst (test (mkRegExp (Seq Bol (literal text (Seq Eol Empty))) false false i) key)
  = String.eqb key text.
Proof.
  rewrite test_flagless; simpl fst.
  rewrite scan_anchored, matcher_literal_Eol.
  destruct (String.eqb key text); reflexivity.
Qed.

Lemma selects_escapeStars (text key : string) :
  allChars ordinaryOrStar text = true ->
  selects (VString (escapeStars text)) key = Some (String.eqb key text).
Proof.
  intros Hall; unfold selects.
  rewrite (toRegExp_escapeStars _ Hall), test_anchored_literal; reflexivity.
Qed.

(** More fuel than the length of the suffix changes nothing, so the
    recursion of [RepeatMatcher] never stops for lack of fuel. *)
Section RepeatFuel.

Variable m : Matcher.
Hypothesis m_ext :
  forall x c1 c2, (forall y, c1 y = c2 y) -> m x c1 = m x c2.
Hypothesis m_fails : forall x, m x (fun _ => None) = None.

Lemma RepeatMatcher_step (fuel : nat) (x : string) (c : Continuation) :
  String.length x <= fuel ->
  RepeatMatcher m (S fuel) x c = RepeatMatcher m fuel x c.
Proof.
  revert x; induction fuel as [|fuel IH]; intros x Hle.
  - simpl. rewrite (m_ext x _ (fun _ => None)).
    + rewrite m_fails; reflexivity.
    + intros y. destruct (Nat.ltb_spec (String.length y) (String.length x));
        [lia | reflexivity].
  - change (orElse
              (m x (fun y => if Nat.ltb (String.length y) (String.length x)
                             then RepeatMatcher m (S fuel) y c else None))
              (c x)
            = orElse
                (m x (fun y => if Nat.ltb (String.length y) (String.length x)
                               then RepeatMatcher m fuel y c else None))
                (c x)).
    f_equal. apply m_ext; intros y.
    destruct (Nat.ltb_spec (String.length y) (String.length x));
      [apply IH; lia | reflexivity].
Qed.

Lemma RepeatMatcher_fuel (fuel : nat) (x : string) (c : Continuation) :
  String.length x <= fuel ->
  RepeatMatcher m fuel x c = RepeatMatcher m (String.length x) x c.
Proof.
  induction fuel as [|fuel IH]; intros Hle.
  - replace (String.length x) with 0 by lia; reflexivity.
  - destruct (Nat.eq_dec (String.length x) (S fuel)) as [->|Hne];
      [reflexivity |].
    rewrite RepeatMatcher_step by lia. apply IH; lia.
Qed.

Lemma RepeatMatcher_ext (fuel : nat) (x : string) (c1 c2 : Continuation) :
  (forall y, c1 y = c2 y) ->
  RepeatMatcher m fuel x c1 = RepeatMatcher m fuel x c2.
Proof.
  revert x; induction fuel as [|fuel IH]; intros x H; simpl; [apply H |].
  rewrite (H x). f_equal. apply m_ext; intros y.
  destruct (Nat.ltb (String.length y) (String.length x));
    [apply IH; assumption | reflexivity].
Qed.

Lemma RepeatMatcher_fails (fuel : nat) (x : string) :
  RepeatMatcher m fuel x (fun _ => None) = None.
Proof.
  revert x; induction fuel as [|fuel IH]; intros x; simpl; [reflexivity |].
  rewrite (m_ext x _ (fun _ => None)).
  - rewrite m_fails; reflexivity.
  - intros y. destruct (Nat.ltb (String.length y) (String.length x));
      [apply IH | reflexivity].
Qed.

End RepeatFuel.

Lemma matcher_ext (n : nat) (r : regex) :
  forall x c1 c2, (forall y, c1 y = c2 y) -> matcher n r x c1 = matcher n r x c2.
Proof.
  induction r as [| ch | | | | a IHa b IHb | a IHa b IHb | a IHa | a IHa | a IHa];
    intros x c1 c2 H; simpl.
  - apply H.
  - destruct x as [|d y]; [reflexivity |]. destruct (Ascii.eqb ch d); [apply H | reflexivity].
  - destruct x as [|d y]; [reflexivity |]. destruct (isLineTerminator d); [reflexivity | apply H].
  - destruct (Nat.eqb (String.length x) n); [apply H | reflexivity].
  - destruct x; [apply H | reflexivity].
  - apply IHa; intros y; apply IHb; assumption.
  - rewrite (IHa x c1 c2 H), (IHb x c1 c2 H); reflexivity.
  - apply RepeatMatcher_ext; assumption.
  - apply IHa; intros y. apply RepeatMatcher_ext; assumption.
  - rewrite (H x). f_equal. apply IHa; intros y.
    destruct (Nat.ltb (String.length y) (String.length x)); [apply H | reflexivity].
Qed.

Lemma matcher_fails (n : nat) (r : regex) :
  forall x, matcher n r x (fun _ => None) = None.
Proof.
  induction r as [| ch | | | | a IHa b IHb | a IHa b IHb | a IHa | a IHa | a IHa];
    intros x; simpl.
  - reflexivity.
  - destruct x as [|d y]; [reflexivity |]. destruct (Ascii.eqb ch d); reflexivity.
  - destruct x as [|d y]; [reflexivity |]. destruct (isLineTerminator d); reflexivity.
  - destruct (Nat.eqb (String.length x) n); reflexivity.
  - destruct x; reflexivity.
  - rewrite (matcher_ext n a x _ (fun _ => None)); [apply IHa | apply IHb].
  - rewrite IHa, IHb; reflexivity.
  - apply RepeatMatcher_fails; [apply matcher_ext | apply IHa].
  - rewrite (matcher_ext n a x _ (fun _ => None)); [apply IHa |].
    intros y; apply RepeatMatcher_fails; [apply matcher_ext | apply IHa].
  - rewrite (matcher_ext n a x _ (fun _ => None)); [rewrite IHa; reflexivity |].
    intros y. destruct (Nat.ltb (String.length y) (String.length x)); reflexivity.
Qed.

(** [a*] does not depend on the fuel it is given, once there is enough. *)
Lemma Star_fuel (n : nat) (a : regex) (fuel : nat) (x : string) (c : Continuation) :
  String.length x <= fuel ->
  RepeatMatcher (matcher n a) fuel x c = matcher n (Star a) x c.
Proof.
  intros Hle; simpl.
  apply RepeatMatcher_fuel; [apply matcher_ext | apply matcher_fails | assumption].
Qed.

(** ** The namespace *)

Lemma getProp_None_iff (ns : registry) (k : string) :
  getProp ns k = None <-> ~ In k (map fst ns).
Proof.
  induction ns as [|[k0 s0] ns IH]; simpl.
  - split; [intros _ [] | reflexivity].
  - destruct (String.eqb_spec k0 k) as [->|Hne].
    + split; [discriminate | intros H; exfalso; apply H; left; reflexivity].
    + rewrite IH. split; [intros H [E|Hin]; [contradiction | auto] | auto].
Qed.

Lemma getProp_Some_In (ns : registry) (k : string) (subs : list fnref) :
  getProp ns k = Some subs -> In (k, subs) ns.
Proof.
  induction ns as [|[k0 s0] ns IH]; simpl; [discriminate |].
  destruct (String.eqb_spec k0 k) as [->|Hne].
  - intros E; inversion E; left; reflexivity.
  - intros E; right; auto.
Qed.

Lemma getProp_present (ns : registry) (k : string) :
  In k (map fst ns) -> exists subs, getProp ns k = Some subs.
Proof.
  intros Hin. destruct (getProp ns k) as [subs|] eqn:E; [eauto |].
  apply getProp_None_iff in E; contradiction.
Qed.

Lemma deleteProp_filter (ns : registry) (k : string) :
  deleteProp ns k = filter (fun e => negb (String.eqb (fst e) k)) ns.
Proof.
  induction ns as [|[k0 s0] ns IH]; simpl; [reflexivity |].
  destruct (String.eqb k0 k); simpl; [exact IH | f_equal; exact IH].
Qed.

Lemma map_update_absent (g : list fnref -> list fnref) (ns : registry) (k : string) :
  ~ In k (map fst ns) ->
  map (fun e => if String.eqb (fst e) k then (fst e, g (snd e)) else e) ns = ns.
Proof.
  induction ns as [|[k0 s0] ns IH]; simpl; intros Hnot; [reflexivity |].
  destruct (String.eqb_spec k0 k) as [->|Hne].
  - exfalso; apply Hnot; left; reflexivity.
  - f_equal; apply IH; intros Hin; apply Hnot; right; exact Hin.
Qed.

(** An in-place update of the array stored under a key, as a map over
    the entries. *)
Lemma setProp_update (g : list fnref -> list fnref) (ns : registry)
    (k : string) (subs : list fnref) :
  NoDup (map fst ns) ->
  getProp ns k = Some subs ->
  setProp ns k (g subs)
  = map (fun e => if String.eqb (fst e) k then (fst e, g (snd e)) else e) ns.
Proof.
  induction ns as [|[k0 s0] ns IH]; simpl; intros Hnd Hget; [discriminate |].
  inversion Hnd as [|? ? Hnot Hnd']; subst.
  destruct (String.eqb_spec k0 k) as [->|Hne].
  - inversion Hget; subst. rewrite map_update_absent by assumption. reflexivity.
  - f_equal. apply IH; assumption.
Qed.

Lemma setProp_same (ns : registry) (k : string) (subs : list fnref) :
  getProp ns k = Some subs -> setProp ns k subs = ns.
Proof.
  induction ns as [|[k0 s0] ns IH]; simpl; [discriminate |].
  destruct (String.eqb_spec k0 k) as [->|Hne].
  - intros E; inversion E; reflexivity.
  - intros E; f_equal; auto.
Qed.

Lemma setProp_keys (ns : registry) (k : string) (subs : list fnref) :
  map fst (setProp ns k subs)
  = if isSome (getProp ns k) then map fst ns else map fst ns ++ [k].
Proof.
  induction ns as [|[k0 s0] ns IH]; simpl; [reflexivity |].
  destruct (String.eqb_spec k0 k) as [->|Hne]; simpl; [reflexivity |].
  rewrite IH. destruct (getProp ns k); reflexivity.
Qed.

Lemma getProp_setProp (ns : registry) (k k' : string) (subs : list fnref) :
  getProp (setProp ns k subs) k'
  = if String.eqb k k' then Some subs else getProp ns k'.
Proof.
  induction ns as [|[k0 s0] ns IH]; simpl.
  - destruct (String.eqb k k'); reflexivity.
  - destruct (String.eqb_spec k0 k) as [->|Hne]; simpl.
    + destruct (String.eqb k k'); reflexivity.
    + destruct (String.eqb_spec k0 k') as [->|Hne'].
      * destruct (String.eqb_spec k k'); [congruence | reflexivity].
      * exact IH.
Qed.

(** *** Enumeration *)

Lemma insertIndex_Permutation (i : N) (k : string) (l : list (N * string)) :
  Permutation ((i, k) :: l) (insertIndex i k l).
Proof.
  induction l as [|[j k'] l IH]; simpl; [apply Permutation_refl |].
  destruct (i <? j)%N; [apply Permutation_refl |].
  eapply Permutation_trans; [apply perm_swap | apply perm_skip; exact IH].
Qed.

Lemma indexKeys_Permutation (keys : list string) :
  Permutation (map snd (indexKeys keys))
              (filter (fun k => negb (isNamedKey k)) keys).
Proof.
  induction keys as [|k keys IH]; simpl; [apply Permutation_refl |].
  unfold isNamedKey at 1. destruct (arrayIndex k) as [i|]; simpl.
  - eapply Permutation_trans.
    + apply Permutation_map, Permutation_sym, insertIndex_Permutation.
    + simpl. apply perm_skip; exact IH.
  - exact IH.
Qed.

Lemma forInKeys_Permutation (ns : registry) :
  Permutation (forInKeys ns) (map fst ns).
Proof.
  unfold forInKeys. set (keys := map fst ns). clearbody keys.
  eapply Permutation_trans;
    [apply Permutation_app_tail, indexKeys_Permutation |].
  induction keys as [|k keys IH]; simpl; [apply Permutation_refl |].
  destruct (isNamedKey k); simpl.
  - eapply Permutation_trans; [apply Permutation_sym, Permutation_middle |].
    apply perm_skip; exact IH.
  - apply perm_skip; exact IH.
Qed.

Lemma forInKeys_In (ns : registry) (k : string) :
  In k (forInKeys ns) <-> In k (map fst ns).
Proof.
  split; apply Permutation_in;
    [apply forInKeys_Permutation | apply Permutation_sym, forInKeys_Permutation].
Qed.

Lemma forInKeys_NoDup (ns : registry) :
  NoDup (map fst ns) -> NoDup (forInKeys ns).
Proof.
  apply Permutation_NoDup, Permutation_sym, forInKeys_Permutation.
Qed.

(** Keys none of which is an array index are enumerated in creation
    order. *)
Lemma forInKeys_named (ns : registry) :
  forallb isNamedKey (map fst ns) = true -> forInKeys ns = map fst ns.
Proof.
  unfold forInKeys. set (keys := map fst ns). clearbody keys. intros H.
  assert (E : indexKeys keys = [] /\ filter isNamedKey keys = keys).
  { induction keys as [|k keys IH]; simpl; [split; reflexivity |].
    simpl in H; apply andb_prop in H as [Hk Hrest].
    destruct (IH Hrest) as [E1 E2]. rewrite Hk.
    unfold isNamedKey in Hk. destruct (arrayIndex k); [discriminate |].
    split; [exact E1 | f_equal; exact E2]. }
  destruct E as [E1 E2]; rewrite E1, E2; reflexivity.
Qed.

Lemma matching_incl (re : RegExp) (keys : list string) (k : string) :
  In k (matching re keys) -> In k keys.
Proof.
  revert re; induction keys as [|k0 keys IH]; intros re; simpl; [auto |].
  destruct (test re k0) as [[|] re']; simpl; intros H.
  - destruct H; [left; assumption | right; eauto].
  - right; eauto.
Qed.

Lemma memKey_In (k : string) (keys : list string) :
  memKey k keys = true <-> In k keys.
Proof.
  unfold memKey; rewrite existsb_exists; split.
  - intros [x [Hin E]]; apply String.eqb_eq in E; subst; assumption.
  - intros Hin; exists k; split; [assumption | apply String.eqb_refl].
Qed.

Lemma memKey_false (k : string) (keys : list string) :
  ~ In k keys -> memKey k keys = false.
Proof.
  intros H; destruct (memKey k keys) eqn:E; [| reflexivity].
  apply memKey_In in E; contradiction.
Qed.

(** ** [forEachTopic] with the callbacks of the methods *)

Lemma forIn_ext (S : Type)
    (fn1 fn2 : list fnref -> string -> registry -> S -> completion unit * (registry * S)) :
  (forall subs topic ns s, fn1 subs topic ns s = fn2 subs topic ns s) ->
  forall keys re ns s, forIn fn1 keys re ns s = forIn fn2 keys re ns s.
Proof.
  intros H keys; induction keys as [|k keys IH]; intros re ns s; simpl;
    [reflexivity |].
  destruct (getProp ns k) as [subs|]; [| apply IH].
  destruct (test re k) as [[|] re']; [| apply IH].
  rewrite H. destruct (fn2 subs k ns s) as [[[]|e|] [ns' s']];
    [apply IH | reflexivity | reflexivity].
Qed.

Lemma indexOfRef_None (subs : list fnref) (f : fnref) :
  indexOfRef subs f = None <-> ~ In f subs.
Proof.
  induction subs as [|g subs IH]; simpl.
  - split; [intros _ [] | reflexivity].
  - destruct (Nat.eqb_spec g f) as [->|Hne].
    + split; [discriminate | intros H; exfalso; apply H; left; reflexivity].
    + destruct (indexOfRef subs f).
      * split; [discriminate |].
        intros H; exfalso. destruct IH as [_ IH].
        assert (~ In f subs) as Hn by (intros Hin; apply H; right; exact Hin).
        specialize (IH Hn); discriminate.
      * split; [| reflexivity].
        intros _ [E|Hin]; [contradiction | apply (proj1 IH eq_refl); exact Hin].
Qed.

Lemma prune_removedFrom (f : fnref) (subs : list fnref) :
  removedFrom f subs (prune (VFunction f) subs).
Proof.
  unfold prune; simpl.
  induction subs as [|g subs IH]; simpl.
  - left; split; [intros [] | reflexivity].
  - destruct (Nat.eqb_spec g f) as [->|Hne].
    + right; exists [], subs; simpl; repeat split; auto.
    + destruct (indexOfRef subs f) as [i|] eqn:E.
      * destruct IH as [[Hn _]|[l1 [l2 [E1 [Hn E2]]]]].
        -- apply indexOfRef_None in Hn; congruence.
        -- right; exists (g :: l1), l2; simpl; repeat split.
           ++ f_equal; exact E1.
           ++ intros [Eg|Hin]; [contradiction | auto].
           ++ f_equal; exact E2.
      * left; split; [| reflexivity].
        apply indexOfRef_None in E.
        intros [Eg|Hin]; [contradiction | auto].
Qed.

Lemma removedFrom_NoDup (f : fnref) (subs subs' : list fnref) :
  removedFrom f subs subs' -> NoDup subs -> NoDup subs'.
Proof.
  intros [[_ ->]|[l1 [l2 [-> [_ ->]]]]] Hnd; [exact Hnd |].
  apply NoDup_remove_1 in Hnd; exact Hnd.
Qed.

Lemma prune_NoDup (v : value) (subs : list fnref) :
  NoDup subs -> NoDup (prune v subs).
Proof.
  destruct v; try (intros H; exact H).
  apply (removedFrom_NoDup f), prune_removedFrom.
Qed.

Lemma unsubscribeCallback_truthy (v : value) (subs : list fnref) (k : string)
    (ns : registry) :
  truthy v = true ->
  getProp ns k = Some subs ->
  unsubscribeCallback v subs k ns tt = (Normal tt, (setProp ns k (prune v subs), tt)).
Proof.
  intros Ht Hget; unfold unsubscribeCallback, prune; rewrite Ht.
  destruct (indexOf subs v); [reflexivity |].
  rewrite (setProp_same _ _ _ Hget); reflexivity.
Qed.

Lemma unsubscribeCallback_falsy (v : value) (subs : list fnref) (k : string)
    (ns : registry) :
  truthy v = false ->
  unsubscribeCallback v subs k ns tt = (Normal tt, (deleteProp ns k, tt)).
Proof. intros Ht; unfold unsubscribeCallback; rewrite Ht; reflexivity. Qed.

(** Without a subscriber: the entries of the selected keys are deleted. *)
Lemma forIn_delete (v : value) (keys : list string) :
  truthy v = false ->
  NoDup keys ->
  forall (re : RegExp) (ns : registry),
    (forall k, In k keys -> In k (map fst ns)) ->
    forIn (unsubscribeCallback v) keys re ns tt
    = (Normal tt,
       (filter (fun e => negb (memKey (fst e) (matching re keys))) ns, tt)).
Proof.
  intros Ht; induction keys as [|k keys IH]; intros Hnd re ns Hin; simpl.
  - f_equal; f_equal. symmetry.
    induction ns as [|e ns IHns]; simpl; [reflexivity | f_equal; apply IHns].
    intros k [].
  - inversion Hnd as [|? ? Hk Hnd']; subst.
    destruct (getProp_present ns k (Hin k (or_introl eq_refl))) as [subs Hget].
    rewrite Hget. destruct (test re k) as [[|] re'].
    + rewrite (unsubscribeCallback_falsy v subs k ns Ht).
      rewrite IH; [| assumption |].
      * f_equal; f_equal. rewrite deleteProp_filter.
        clear. induction ns as [|e ns IHns]; simpl; [reflexivity |].
        unfold memKey at 3; simpl.
        destruct (String.eqb (fst e) k); simpl; [exact IHns |].
        fold (memKey (fst e) (matching re' keys)).
        destruct (memKey (fst e) (matching re' keys)); simpl;
          [exact IHns | f_equal; exact IHns].
      * intros k' Hk'. rewrite deleteProp_filter.
        specialize (Hin k' (or_intror Hk')).
        apply in_map_iff in Hin as [e [E He]]. apply in_map_iff.
        exists e; split; [exact E |]. apply filter_In; split; [exact He |].
        rewrite E. destruct (String.eqb_spec k' k); [subst; contradiction | reflexivity].
    + apply IH; [assumption | intros k' Hk'; apply Hin; right; exact Hk'].
Qed.

(** With a subscriber: the arrays of the selected keys are pruned, and
    every key stays where it is. *)
Lemma forIn_prune (v : value) (keys : list string) :
  truthy v = true ->
  NoDup keys ->
  forall (re : RegExp) (ns : registry),
    NoDup (map fst ns) ->
    (forall k, In k keys -> In k (map fst ns)) ->
    forIn (unsubscribeCallback v) keys re ns tt
    = (Normal tt,
       (map (fun e => if memKey (fst e) (matching re keys)
                      then (fst e, prune v (snd e)) else e) ns, tt)).
Proof.
  intros Ht; induction keys as [|k keys IH]; intros Hnd re ns Hns Hin; simpl.
  - f_equal; f_equal. symmetry. rewrite <- (map_id ns) at 2.
    apply map_ext; intros e; reflexivity.
  - inversion Hnd as [|? ? Hk Hnd']; subst.
    destruct (getProp_present ns k (Hin k (or_introl eq_refl))) as [subs Hget].
    rewrite Hget. destruct (test re k) as [[|] re'].
    + rewrite (unsubscribeCallback_truthy v subs k ns Ht Hget).
      rewrite (setProp_update (prune v) ns k subs Hns Hget).
      set (upd := fun e : string * list fnref =>
                    if String.eqb (fst e) k then (fst e, prune v (snd e)) else e).
      assert (Hkeys : map fst (map upd ns) = map fst ns).
      { rewrite map_map. apply map_ext; intros e; unfold upd.
        destruct (String.eqb (fst e) k); reflexivity. }
      rewrite IH; [| assumption | rewrite Hkeys; assumption
                   | intros k' Hk'; rewrite Hkeys; apply Hin; right; exact Hk'].
      f_equal; f_equal. rewrite map_map. apply map_ext; intros e.
      unfold upd, memKey at 2; simpl.
      destruct (String.eqb_spec (fst e) k) as [E|Hne]; simpl.
      * rewrite E, memKey_false; [reflexivity |].
        intros Hm; apply matching_incl in Hm; contradiction.
      * reflexivity.
    + apply IH; [assumption | assumption
                 | intros k' Hk'; apply Hin; right; exact Hk'].
Qed.

Section PublishFacts.

Variable W : Type.
Variable invoke : fnref -> Context -> value -> W -> returned * W.
Variable this : Context.
Variable message : value.

Lemma callSubscribers_app (l1 l2 : list fnref) (st : pstate W) :
  callSubscribers W invoke this message (l1 ++ l2) st
  = match callSubscribers W invoke this message l1 st with
    | (Normal _, st') => callSubscribers W invoke this message l2 st'
    | (Throw e, st') => (Throw e, st')
    | (Beyond, st') => (Beyond, st')
    end.
Proof.
  revert st; induction l1 as [|f l1 IH]; intros st; simpl; [reflexivity |].
  destruct (invoke f this message (world st)) as [[v|v] w'];
    [apply IH | reflexivity].
Qed.

(** The two nested loops of [publish] are one pass over [visited]. *)
Lemma forIn_publish (keys : list string) :
  forall (re : RegExp) (ns : registry) (st : pstate W),
    (forall k, In k keys -> In k (map fst ns)) ->
    forIn (publishCallback W invoke this message) keys re ns st
    = match callSubscribers W invoke this message
              (flat_map (subscribersOf ns) (matching re keys)) st with
      | (c, st') => (c, (ns, st'))
      end.
Proof.
  induction keys as [|k keys IH]; intros re ns st Hin; simpl; [reflexivity |].
  destruct (getProp_present ns k (Hin k (or_introl eq_refl))) as [subs Hget].
  rewrite Hget.
  assert (Hrest : forall k', In k' keys -> In k' (map fst ns))
    by (intros k' Hk'; apply Hin; right; exact Hk').
  destruct (test re k) as [[|] re']; [| apply IH; exact Hrest].
  simpl. unfold subscribersOf at 1; rewrite Hget.
  rewrite callSubscribers_app. unfold publishCallback at 1.
  destruct (callSubscribers W invoke this message subs st) as [[[]|e|] st'];
    [apply IH; exact Hrest | reflexivity | reflexivity].
Qed.

Lemma publish_visited (ns : registry) (topics : value) (re : RegExp) (w : W) :
  _pubsub this = Some ns ->
  toRegExp topics = Normal re ->
  publish W invoke this topics message w
  = match callSubscribers W invoke this message (visited ns re)
            (mkPstate [] [] w) with
    | (Normal _, st) => (Normal (results st), st)
    | (Throw e, st) => (Throw e, st)
    | (Beyond, st) => (Beyond, st)
    end.
Proof.
  intros Hns Hre; unfold publish, forEachTopic; rewrite Hns, Hre.
  rewrite forIn_publish by (intros k; apply forInKeys_In).
  fold (visited ns re).
  destruct (callSubscribers W invoke this message (visited ns re)
              (mkPstate [] [] w)) as [[[]|e|] st]; reflexivity.
Qed.

Lemma publish_visited_any (topics : value) (re : RegExp) (w : W) :
  toRegExp topics = Normal re ->
  publish W invoke this topics message w
  = match callSubscribers W invoke this message (visited (registryOf this) re)
            (mkPstate [] [] w) with
    | (Normal _, st) => (Normal (results st), st)
    | (Throw e, st) => (Throw e, st)
    | (Beyond, st) => (Beyond, st)
    end.
Proof.
  intros Hre. destruct (_pubsub this) as [ns|] eqn:Hns.
  - unfold registryOf; rewrite Hns. apply publish_visited; assumption.
  - unfold publish, forEachTopic, registryOf; rewrite Hns; reflexivity.
Qed.

Lemma callSubscribers_returning (fs : list fnref) (vs : list value) (w' : W) :
  forall st,
    returning W invoke this message fs (world st) vs w' ->
    callSubscribers W invoke this message fs st
    = (Normal tt, mkPstate (results st ++ vs) (invoked st ++ fs) w').
Proof.
  revert vs; induction fs as [|f fs IH]; intros vs st H; inversion H; subst; simpl.
  - rewrite !app_nil_r. destruct st; reflexivity.
  - match goal with E : invoke _ _ _ _ = _ |- _ => rewrite E end.
    erewrite IH by (simpl; eassumption). simpl.
    rewrite <- !app_assoc; reflexivity.
Qed.

Lemma callSubscribers_Normal (fs : list fnref) :
  forall st u st',
    callSubscribers W invoke this message fs st = (Normal u, st') ->
    exists vs,
      returning W invoke this message fs (world st) vs (world st')
      /\ results st' = results st ++ vs
      /\ invoked st' = invoked st ++ fs.
Proof.
  induction fs as [|f fs IH]; intros st u st' H; simpl in H.
  - inversion H; subst. exists []; rewrite !app_nil_r.
    repeat split; constructor.
  - destruct (invoke f this message (world st)) as [[v|v] w1] eqn:E;
      [| discriminate].
    apply IH in H as [vs [Hr [Hres Hinv]]]; simpl in *.
    exists (v :: vs); repeat split.
    + econstructor; eassumption.
    + rewrite Hres, <- app_assoc; reflexivity.
    + rewrite Hinv, <- app_assoc; reflexivity.
Qed.

Lemma callSubscribers_raise (pre post : list fnref) (f : fnref)
    (vs : list value) (v : value) (w1 w2 : W) :
  forall st,
    returning W invoke this message pre (world st) vs w1 ->
    invoke f this message w1 = (Raise v, w2) ->
    callSubscribers W invoke this message (pre ++ f :: post) st
    = (Throw (Thrown v),
       mkPstate (results st ++ vs) (invoked st ++ pre ++ [f]) w2).
Proof.
  intros st Hpre Hf. rewrite callSubscribers_app.
  rewrite (callSubscribers_returning pre vs w1 st Hpre). simpl.
  rewrite Hf. rewrite <- app_assoc; reflexivity.
Qed.

Lemma callSubscribers_not_Beyond (fs : list fnref) :
  forall st st', callSubscribers W invoke this message fs st <> (Beyond, st').
Proof.
  induction fs as [|f fs IH]; intros st st'; simpl; [discriminate |].
  destruct (invoke f this message (world st)) as [[v|v] w1];
    [apply IH | discriminate].
Qed.

End PublishFacts.

(** ** Well-formed contexts *)

Lemma subscribe_unfold (this : Context) (t : string) (f : fnref) :
  subscribable this = true ->
  subscribe this (VString t) (VFunction f)
  = (Normal tt,
     mkContext
       (Some (let ns := match _pubsub this with Some ns => ns | None => [] end in
              let subs := subscribersOf ns t in
              setProp ns t (if isSome (indexOfRef subs f) then subs else subs ++ [f])))
       (extensible this)).
Proof.
  unfold subscribable, subscribe, subscribersOf, indexOf; intros H.
  destruct (_pubsub this) as [ns|]; [| rewrite H]; cbv zeta;
    match goal with
    | |- context [indexOfRef ?subs f] => destruct (indexOfRef subs f)
    end; reflexivity.
Qed.

(** On a context that cannot take a registry, [subscribe] with valid
    arguments throws and changes nothing. *)
Lemma subscribe_not_subscribable (this : Context) (t : string) (f : fnref) :
  subscribable this = false ->
  subscribe this (VString t) (VFunction f) = (Throw notExtensibleTypeError, this).
Proof.
  unfold subscribable, subscribe; intros H.
  destruct (_pubsub this); [discriminate H | rewrite H; reflexivity].
Qed.

Lemma subscribe_subscribable (this : Context) (topic subscriber : value) :
  subscribable this = true ->
  subscribable (snd (subscribe this topic subscriber)) = true.
Proof.
  intros H. destruct topic as [| | | |t| | |]; try exact H.
  destruct subscriber as [| | | | |f| |]; try exact H.
  rewrite (subscribe_unfold this t f H); reflexivity.
Qed.

Lemma setProp_Forall (P : list fnref -> Prop) (ns : registry) (t : string)
    (new : list fnref) :
  Forall (fun e => P (snd e)) ns -> P new ->
  Forall (fun e => P (snd e)) (setProp ns t new).
Proof.
  intros Hns Hnew; induction ns as [|[k0 s0] ns IH]; simpl.
  - constructor; [exact Hnew | constructor].
  - inversion Hns; subst. destruct (String.eqb k0 t).
    + constructor; assumption.
    + constructor; [assumption | apply IH; assumption].
Qed.

Lemma subscribe_wf (this : Context) (topic subscriber : value) :
  wfContext this -> wfContext (snd (subscribe this topic subscriber)).
Proof.
  intros Hwf. destruct topic as [| | | |t| | |]; try exact Hwf.
  destruct subscriber as [| | | | |f| |]; try exact Hwf.
  destruct (subscribable this) eqn:Hable;
    [| rewrite (subscribe_not_subscribable this t f Hable); exact Hwf].
  rewrite (subscribe_unfold this t f Hable). unfold wfContext; cbn [snd _pubsub].
  set (ns := match _pubsub this with Some ns => ns | None => [] end).
  assert (Hns : wfRegistry ns).
  { unfold wfContext in Hwf; subst ns. destruct (_pubsub this);
      [exact Hwf | split; constructor]. }
  clearbody ns. destruct Hns as [Hkeys Hsubs]. cbv zeta.
  assert (Hnd : NoDup (subscribersOf ns t)).
  { unfold subscribersOf. destruct (getProp ns t) as [l|] eqn:E; [| constructor].
    apply getProp_Some_In in E.
    rewrite Forall_forall in Hsubs. apply (Hsubs _ E). }
  set (subs := subscribersOf ns t) in *. clearbody subs.
  assert (Hnew : NoDup (if isSome (indexOfRef subs f) then subs else subs ++ [f])).
  { destruct (indexOfRef subs f) eqn:E; simpl; [exact Hnd |].
    apply indexOfRef_None in E.
    apply NoDup_app; [exact Hnd | repeat constructor; intros [] |].
    intros x Hx [<-|[]]; contradiction. }
  split.
  - rewrite setProp_keys. destruct (getProp ns t) eqn:E; simpl; [exact Hkeys |].
    apply getProp_None_iff in E.
    apply NoDup_app; [exact Hkeys | repeat constructor; intros [] |].
    intros x Hx [<-|[]]; contradiction.
  - apply setProp_Forall; assumption.
Qed.

Lemma NoDup_keys_filter (p : string * list fnref -> bool) (ns : registry) :
  NoDup (map fst ns) -> NoDup (map fst (filter p ns)).
Proof.
  induction ns as [|e ns IH]; simpl; intros Hkeys; [constructor |].
  inversion Hkeys as [|? ? Hnot Hnd]; subst.
  destruct (p e); simpl; [| apply IH; exact Hnd].
  constructor; [| apply IH; exact Hnd].
  intros Hin; apply Hnot. apply in_map_iff in Hin as [x [E Hx]].
  apply filter_In in Hx as [Hx _]. apply in_map_iff; eauto.
Qed.

Lemma unsubscribe_wf (this : Context) (topics subscriber : value) :
  wfContext this -> wfContext (snd (unsubscribe this topics subscriber)).
Proof.
  intros Hwf. unfold unsubscribe, forEachTopic.
  destruct (_pubsub this) as [ns|] eqn:Hns; [| exact Hwf].
  destruct (toRegExp topics) as [re|e|]; [| exact Hwf | exact Hwf].
  unfold wfContext in Hwf; rewrite Hns in Hwf. destruct Hwf as [Hkeys Hsubs].
  assert (Hin : forall k, In k (forInKeys ns) -> In k (map fst ns))
    by (intros k; apply forInKeys_In).
  destruct (truthy subscriber) eqn:Ht.
  - rewrite (forIn_prune subscriber _ Ht (forInKeys_NoDup ns Hkeys) re ns Hkeys Hin).
    unfold wfContext; simpl. split.
    + rewrite map_map.
      erewrite map_ext; [exact Hkeys |].
      intros e; simpl. destruct (memKey (fst e) _); reflexivity.
    + rewrite Forall_map. eapply Forall_impl; [| exact Hsubs].
      intros e He; simpl. destruct (memKey (fst e) _); simpl;
        [apply prune_NoDup; exact He | exact He].
  - rewrite (forIn_delete subscriber _ Ht (forInKeys_NoDup ns Hkeys) re ns Hin).
    unfold wfContext; simpl. split.
    + apply NoDup_keys_filter; exact Hkeys.
    + apply Forall_forall; intros e He. apply filter_In in He as [He _].
      rewrite Forall_forall in Hsubs; auto.
Qed.

Lemma reachable_wf (this : Context) : reachable this -> wfContext this.
Proof.
  induction 1; [exact I | apply subscribe_wf; assumption
                | apply unsubscribe_wf; assumption].
Qed.

Lemma unsubscribe_subscribable (this : Context) (topics subscriber : value) :
  subscribable this = true ->
  subscribable (snd (unsubscribe this topics subscriber)) = true.
Proof.
  intros H. unfold unsubscribe, forEachTopic.
  destruct (_pubsub this) as [ns|] eqn:Hns; [| exact H].
  destruct (toRegExp topics) as [re|e|]; [| exact H | exact H].
  destruct (forIn _ _ re ns tt) as [c [ns' u]]; reflexivity.
Qed.

Lemma reachable_subscribable (this : Context) :
  reachable this -> subscribable this = true.
Proof.
  induction 1; [reflexivity | apply subscribe_subscribable; assumption
                | apply unsubscribe_subscribable; assumption].
Qed.

(** ** Wildcards *)

Lemma starOf_ext (g h : string -> bool) :
  (forall key, g key = h key) -> forall key, starOf g key = starOf h key.
Proof.
  intros H key; induction key as [|d key IH]; simpl; rewrite H;
    [reflexivity | rewrite IH; reflexivity].
Qed.

(** A run of asterisks is worth one. *)
Lemma starOf_idempotent (g : string -> bool) (key : string) :
  starOf (starOf g) key = starOf g key.
Proof.
  induction key as [|d key IH]; simpl.
  - destruct (g ""); reflexivity.
  - rewrite IH. destruct (g (String d key)); simpl; [reflexivity |].
    destruct (negb (isLineTerminator d) && starOf g key); reflexivity.
Qed.

Lemma tokensOf_skipping (c : ascii) (rest : string) :
  Ascii.eqb c "*" = false ->
  tokensOf true (String c rest) = tokensOf false (String c rest).
Proof. intros H; simpl; rewrite H; reflexivity. Qed.

Lemma globTokens_cons (c : ascii) (ts : list token) (rest : string) :
  (forall key, globTokens ts key = glob rest key) ->
  forall key, globTokens (tokenOf c :: ts) key = glob (String c rest) key.
Proof.
  intros H key; unfold tokenOf; simpl.
  destruct (Ascii.eqb c "*"); simpl.
  - apply starOf_ext; exact H.
  - destruct key as [|d key]; [reflexivity | rewrite H; reflexivity].
Qed.

(** The tokens mean what the specification means. *)
Lemma globTokens_tokensOf (s : string) :
  (forall key, globTokens (tokensOf false s) key = glob s key)
  /\ (forall key, starOf (globTokens (tokensOf true s)) key = starOf (glob s) key).
Proof.
  induction s as [|c rest [IH1 IH2]].
  - split; intros key; reflexivity.
  - assert (H1 : forall key,
               globTokens (tokensOf false (String c rest)) key
               = glob (String c rest) key).
    { destruct rest as [|d rest'].
      - intros key; apply (globTokens_cons c [] ""); reflexivity.
      - cbn [tokensOf andb]. destruct (Ascii.eqb d "*") eqn:Ed.
        + apply globTokens_cons. intros key.
          change (starOf (globTokens (tokensOf true rest')) key
                  = glob (String d rest') key).
          simpl in IH2; rewrite Ed in IH2. rewrite IH2.
          simpl; rewrite Ed. apply starOf_idempotent.
        + apply globTokens_cons; exact IH1. }
    split; [exact H1 |].
    destruct (Ascii.eqb c "*") eqn:Ec.
    + intros key. simpl; rewrite Ec. rewrite starOf_idempotent. apply IH2.
    + rewrite (tokensOf_skipping c rest Ec). apply starOf_ext; exact H1.
Qed.

Lemma ordinaryOrStar_not_star (c : ascii) :
  ordinaryOrStar c = true -> Ascii.eqb c "*" = false -> ordinary c = true.
Proof.
  unfold ordinaryOrStar; intros H E; rewrite E, orb_false_r in H; exact H.
Qed.

Lemma startsWith_cons (c d : ascii) (rest : string) :
  startsWith c (String d rest) = Ascii.eqb d c.
Proof. unfold startsWith; apply Ascii.eqb_sym. Qed.

Lemma replaceStars_two (c d : ascii) (rest' : string) :
  replaceStars false (String c (String d rest'))
  = if Ascii.eqb d "*" && negb (Ascii.eqb c "\")
    then String c (String "." (String "*" (replaceStars true rest')))
    else String c (replaceStars false (String d rest')).
Proof. reflexivity. Qed.

Lemma replaceStars_skipping (c : ascii) (rest : string) :
  replaceStars true (String c rest)
  = if Ascii.eqb c "*" then replaceStars true rest
    else replaceStars false (String c rest).
Proof. simpl. destruct (Ascii.eqb c "*"); reflexivity. Qed.

Lemma tokensOf_two (c d : ascii) (rest' : string) :
  tokensOf false (String c (String d rest'))
  = if Ascii.eqb d "*"
    then tokenOf c :: Wild :: tokensOf true rest'
    else tokenOf c :: tokensOf false (String d rest').
Proof. reflexivity. Qed.

Lemma tokensOf_skip (c : ascii) (rest : string) :
  tokensOf true (String c rest)
  = if Ascii.eqb c "*" then tokensOf true rest
    else tokensOf false (String c rest).
Proof. simpl. destruct (Ascii.eqb c "*"); reflexivity. Qed.

Lemma tokensOf_head (c : ascii) (rest : string) :
  exists ts, tokensOf false (String c rest) = tokenOf c :: ts.
Proof.
  destruct rest as [|d rest']; [eexists; reflexivity |].
  rewrite tokensOf_two. destruct (Ascii.eqb d "*"); eexists; reflexivity.
Qed.

(** What the first [replace] makes of a specification that does not
    start, where it is read from, with an asterisk to keep. *)
Lemma replaceStars_render (s : string) :
  allChars ordinaryOrStar s = true ->
  forall skipping,
    (skipping = false -> startsWith "*" s = false) ->
    replaceStars skipping s = render (tokensOf skipping s).
Proof.
  induction s as [|c rest IH]; intros Hall skipping Hhead; [reflexivity |].
  cbn [allChars] in Hall; apply andb_prop in Hall as [Hc Hall].
  assert (Hkeep : Ascii.eqb c "*" = false ->
                  replaceStars false (String c rest)
                  = render (tokensOf false (String c rest))).
  { intros Ec. pose proof (ordinaryOrStar_not_star c Hc Ec) as Hord.
    destruct rest as [|d rest'];
      [simpl; unfold tokenOf; rewrite Ec; reflexivity |].
    rewrite replaceStars_two, tokensOf_two.
    rewrite (ordinary_not c "\" Hord eq_refl). cbn [negb]. rewrite andb_true_r.
    unfold tokenOf; rewrite Ec.
    destruct (Ascii.eqb d "*") eqn:Ed; cbn [render].
    - do 3 f_equal.
      specialize (IH Hall true (fun E => False_ind _ (Bool.diff_true_false E))).
      rewrite replaceStars_skipping, tokensOf_skip, Ed in IH. exact IH.
    - f_equal. apply IH; [exact Hall |].
      intros _; rewrite startsWith_cons; exact Ed. }
  destruct skipping.
  - rewrite replaceStars_skipping, tokensOf_skip.
    destruct (Ascii.eqb c "*") eqn:Ec; [| apply Hkeep; reflexivity].
    apply IH; [exact Hall | discriminate].
  - apply Hkeep. specialize (Hhead eq_refl).
    rewrite startsWith_cons in Hhead; exact Hhead.
Qed.

(** The source of the pattern, for a specification of ordinary
    characters and asterisks. *)
Lemma replace_render (s : string) :
  allChars ordinaryOrStar s = true ->
  replaceLeadingStar (replaceStars false s) = render (tokensOf false s).
Proof.
  intros Hall. destruct s as [|c rest]; [reflexivity |].
  destruct (Ascii.eqb c "*") eqn:Ec.
  - apply Ascii.eqb_eq in Ec; subst c.
    cbn [allChars] in Hall; apply andb_prop in Hall as [_ Hall].
    destruct rest as [|d rest']; [reflexivity |].
    rewrite replaceStars_two, tokensOf_two.
    change (negb (Ascii.eqb "*" "\")) with true; rewrite andb_true_r.
    change (tokenOf "*") with Wild.
    destruct (Ascii.eqb d "*") eqn:Ed.
    + change (String "." (String "*" (String "." (String "*" (replaceStars true rest'))))
              = String "." (String "*" (String "." (String "*"
                                (render (tokensOf true rest')))))).
      do 4 f_equal.
      pose proof (replaceStars_render (String d rest') Hall true
                    (fun E => False_ind _ (Bool.diff_true_false E))) as H.
      rewrite replaceStars_skipping, tokensOf_skip, Ed in H. exact H.
    + change (String "." (String "*" (replaceStars false (String d rest')))
              = String "." (String "*" (render (tokensOf false (String d rest'))))).
      do 2 f_equal. apply replaceStars_render; [exact Hall |].
      intros _; rewrite startsWith_cons; exact Ed.
  - rewrite replaceStars_render;
      [| exact Hall | intros _; rewrite startsWith_cons; exact Ec].
    destruct (tokensOf_head c rest) as [ts ->].
    unfold tokenOf; rewrite Ec. cbn [render]. unfold replaceLeadingStar.
    rewrite Ec; reflexivity.
Qed.

Lemma tokensOf_literal (s : string) :
  allChars ordinaryOrStar s = true ->
  forall skipping, forallb literalToken (tokensOf skipping s) = true.
Proof.
  assert (Htok : forall c, ordinaryOrStar c = true -> literalToken (tokenOf c) = true).
  { intros c Hc; unfold tokenOf. destruct (Ascii.eqb c "*") eqn:Ec; [reflexivity |].
    apply ordinaryOrStar_not_star; assumption. }
  induction s as [|c rest IH]; intros Hall skipping; [reflexivity |].
  cbn [allChars] in Hall; apply andb_prop in Hall as [Hc Hall].
  assert (Hkeep : forallb literalToken (tokensOf false (String c rest)) = true).
  { destruct rest as [|d rest']; [simpl; rewrite (Htok c Hc); reflexivity |].
    rewrite tokensOf_two. destruct (Ascii.eqb d "*") eqn:Ed; cbn [forallb];
      rewrite (Htok c Hc); cbn [andb literalToken].
    - specialize (IH Hall true). rewrite tokensOf_skip, Ed in IH. exact IH.
    - apply IH; exact Hall. }
  destruct skipping; [| exact Hkeep].
  rewrite tokensOf_skip. destruct (Ascii.eqb c "*"); [apply IH; exact Hall | exact Hkeep].
Qed.

Lemma alternativeOf_pushTokens (ts : list token) (acc : list term) (r : regex) :
  fold_left (fun acc t => Seq (termRegex t) acc) (pushTokens ts acc) r
  = fold_left (fun acc t => Seq (termRegex t) acc) acc (tokensRegex ts r).
Proof.
  revert acc; induction ts as [|[c|] ts IH]; intros acc; simpl;
    [reflexivity | rewrite IH; reflexivity | rewrite IH; reflexivity].
Qed.

Lemma render_not_lazy (ts : list token) (s' : string) :
  forallb literalToken ts = true ->
  startsWith "?" s' = false ->
  startsWith "?" (render ts ++ s') = false.
Proof.
  intros Hts Hs'. destruct ts as [|[c|] ts]; [exact Hs' | | reflexivity].
  simpl in Hts; apply andb_prop in Hts as [Hc _].
  cbn [render append]. rewrite startsWith_cons.
  apply (ordinary_not c "?" Hc eq_refl).
Qed.

(** The parser reads the rendered tokens as characters and as [.*]. *)
Lemma parsePattern_render (ts : list token) (s' : string) (alts : list regex)
    (acc : list term) (stack : list frame) :
  forallb literalToken ts = true ->
  startsWith "?" s' = false ->
  parsePattern (render ts ++ s') (mkFrame alts acc) stack
  = parsePattern s' (mkFrame alts (pushTokens ts acc)) stack.
Proof.
  revert acc; induction ts as [|[c|] ts IH]; intros acc Hts Hs'; simpl in *;
    [reflexivity | |].
  - apply andb_prop in Hts as [Hc Hts].
    rewrite (classify_ordinary c Hc). apply IH; assumption.
  - unfold quantify, pushTerm; simpl.
    rewrite (render_not_lazy ts s' Hts Hs'). apply IH; assumption.
Qed.

Lemma isSome_orElse (a b : MatchResult) :
  isSome (orElse a b) = isSome a || isSome b.
Proof. destruct a; reflexivity. Qed.

(** The greedy [.*] finds a match whenever some split of the input gives
    one. *)
Lemma RepeatMatcher_Dot (n : nat) (x : string) (c : Continuation) :
  isSome (RepeatMatcher (matcher n Dot) (String.length x) x c)
  = starOf (fun y => isSome (c y)) x.
Proof.
  induction x as [|d y IH]; simpl.
  - rewrite orb_false_r; reflexivity.
  - rewrite isSome_orElse, orb_comm. f_equal.
    destruct (isLineTerminator d); simpl; [reflexivity |].
    rewrite (proj2 (Nat.ltb_lt _ _) (Nat.lt_succ_diag_r (String.length y))).
    exact IH.
Qed.

Lemma matcher_tokensRegex (n : nat) (ts : list token) (key : string) :
  isSome (matcher n (tokensRegex ts (Seq Eol Empty)) key (fun y => Some y))
  = globTokens ts key.
Proof.
  revert key; induction ts as [|[c|] ts IH]; intros key.
  - destruct key; reflexivity.
  - simpl. destruct key as [|d key]; [reflexivity |].
    destruct (Ascii.eqb c d); [apply IH | reflexivity].
  - cbn [tokensRegex globTokens].
    change (isSome (RepeatMatcher (matcher n Dot) (String.length key) key
                      (fun y => matcher n (tokensRegex ts (Seq Eol Empty)) y
                                  (fun y => Some y)))
            = starOf (globTokens ts) key).
    rewrite RepeatMatcher_Dot. apply starOf_ext; exact IH.
Qed.

(** A specification of ordinary characters and asterisks compiles to an
    anchored pattern, and selects the keys that conform to it as a
    whole. *)
Lemma selects_wildcards (spec key : string) :
  allChars ordinaryOrStar spec = true ->
  selects (VString spec) key = Some (glob spec key).
Proof.
  intros Hall. unfold selects, toRegExp, newRegExp.
  rewrite (replace_render spec Hall). simpl. unfold pushTerm; simpl.
  rewrite (parsePattern_render (tokensOf false spec) "$" [] [TAssertion Bol] []
             (tokensOf_literal spec Hall false) eq_refl).
  simpl. unfold disjunctionOf, alternativeOf, pushTerm; simpl.
  rewrite alternativeOf_pushTokens; simpl.
  rewrite test_flagless; simpl fst. rewrite scan_anchored.
  rewrite <- (proj1 (globTokens_tokensOf spec) key).
  rewrite <- (matcher_tokensRegex (String.length key)).
  destruct (matcher _ _ key _); reflexivity.
Qed.

Lemma getProp_map_cond (c : string -> bool) (g : list fnref -> list fnref)
    (ns : registry) (key : string) :
  getProp (map (fun e => if c (fst e) then (fst e, g (snd e)) else e) ns) key
  = match getProp ns key with
    | Some subs => Some (if c key then g subs else subs)
    | None => None
    end.
Proof.
  induction ns as [|[k0 s0] ns IH]; simpl; [reflexivity |].
  destruct (c k0) eqn:Ec; simpl;
    (destruct (String.eqb_spec k0 key) as [->|Hne]; [rewrite Ec; reflexivity | exact IH]).
Qed.

Lemma escapeStars_ordinary (text : string) :
  allChars ordinary text = true -> escapeStars text = text.
Proof.
  induction text as [|c text IH]; simpl; intros H; [reflexivity |].
  apply andb_prop in H as [Hc H].
  rewrite (ordinary_not c "*" Hc eq_refl), (IH H); reflexivity.
Qed.

Lemma allChars_weaken (p q : ascii -> bool) (s : string) :
  (forall c, p c = true -> q c = true) ->
  allChars p s = true -> allChars q s = true.
Proof.
  intros Hpq; induction s as [|c s IH]; simpl; intros H; [reflexivity |].
  apply andb_prop in H as [Hc H]. rewrite (Hpq c Hc), (IH H); reflexivity.
Qed.

(** On a specification of ordinary characters the predicate is string
    equality. *)
Lemma selects_ordinary (text key : string) :
  allChars ordinary text = true ->
  selects (VString text) key = Some (String.eqb key text).
Proof.
  intros H. rewrite <- (escapeStars_ordinary text H) at 1.
  apply selects_escapeStars.
  apply (allChars_weaken ordinary); [| exact H].
  intros c Hc; unfold ordinaryOrStar; rewrite Hc; reflexivity.
Qed.

(** [publish] leaves the registry as it is. *)
Lemma publish_keeps_registry (W : Type)
    (invoke : fnref -> Context -> value -> W -> returned * W)
    (this : Context) (topics message : value) (st : pstate W) :
  fst (snd (forEachTopic (publishCallback W invoke this message) this topics st))
  = this.
Proof.
  unfold forEachTopic. destruct (_pubsub this) as [ns|] eqn:Hns; [| reflexivity].
  destruct (toRegExp topics) as [re|e|]; [| reflexivity | reflexivity].
  rewrite forIn_publish by (intros k; apply forInKeys_In).
  destruct (callSubscribers W invoke this message _ st) as [c st']; simpl.
  destruct this as [p]; simpl in Hns; rewrite Hns; reflexivity.
Qed.

(** Some of the documented examples. *)
Example wildcard_examples :
  selects (VString "A*y") "Any" = Some true
  /\ selects (VString "A*y") "Aunty" = Some true
  /\ selects (VString "A*y") "Ay" = Some true
  /\ selects (VString "a*e") "abey" = Some false
  /\ selects (VString "a*e") "babe" = Some false
  /\ selects (VString "*") "babe" = Some true.
Proof. repeat split; reflexivity. Qed.

(** ** Specifications that keep no state *)

Lemma toRegExp_string (s : string) (re : RegExp) :
  toRegExp (VString s) = Normal re -> re = mkRegExp (pattern re) false false 0.
Proof.
  unfold toRegExp, newRegExp.
  destruct (parsePattern _ emptyFrame []); intros H; inversion H; reflexivity.
Qed.

Lemma toRegExp_stateless (topics : value) (re : RegExp) :
  stateless topics = true ->
  toRegExp topics = Normal re ->
  global re = false /\ sticky re = false.
Proof.
  intros Hs Hre. destruct topics; try discriminate Hre.
  - apply toRegExp_string in Hre. rewrite Hre; split; reflexivity.
  - simpl in *. inversion Hre; subst.
    apply negb_true_iff, orb_false_iff in Hs. exact Hs.
Qed.

(** Without the [g] and [y] flags, [test] is a predicate on the key and
    leaves the RegExp object as it is. *)
Lemma test_stateless (re : RegExp) (key : string) :
  global re = false -> sticky re = false ->
  test re key = (fst (test re key), re).
Proof.
  destruct re as [r g y i]; simpl; intros -> ->. rewrite test_flagless; reflexivity.
Qed.

Lemma matching_stateless (re : RegExp) (keys : list string) :
  global re = false -> sticky re = false ->
  matching re keys = filter (fun key => fst (test re key)) keys.
Proof.
  intros Hg Hy; induction keys as [|k keys IH]; simpl; [reflexivity |].
  rewrite (test_stateless re k Hg Hy); simpl.
  destruct (fst (test re k)); rewrite IH; reflexivity.
Qed.

Lemma memKey_filter (p : string -> bool) (k : string) (keys : list string) :
  In k keys -> memKey k (filter p keys) = p k.
Proof.
  intros Hin. destruct (p k) eqn:E.
  - apply memKey_In, filter_In; split; assumption.
  - apply memKey_false. intros H; apply filter_In in H as [_ H]; congruence.
Qed.

(** What [unsubscribe] makes of a registry, when [topics] compiles. *)
Lemma unsubscribe_result (this : Context) (ns : registry) (topics v : value)
    (re : RegExp) :
  _pubsub this = Some ns ->
  NoDup (map fst ns) ->
  toRegExp topics = Normal re ->
  unsubscribe this topics v
  = (Normal tt,
     mkContext
       (Some (if truthy v
              then map (fun e => if memKey (fst e) (matching re (forInKeys ns))
                                 then (fst e, prune v (snd e)) else e) ns
              else filter (fun e => negb (memKey (fst e) (matching re (forInKeys ns))))
                     ns))
       (extensible this)).
Proof.
  intros Hns Hkeys Hre.
  assert (Hin : forall k, In k (forInKeys ns) -> In k (map fst ns))
    by (intros k; apply forInKeys_In).
  unfold unsubscribe, forEachTopic; rewrite Hns, Hre.
  destruct (truthy v) eqn:Ht.
  - rewrite (forIn_prune v _ Ht (forInKeys_NoDup ns Hkeys) re ns Hkeys Hin).
    reflexivity.
  - rewrite (forIn_delete v _ Ht (forInKeys_NoDup ns Hkeys) re ns Hin).
    reflexivity.
Qed.

(** ** Escaped asterisks *)



















(** ** The parser does not look into the atoms it has read *)

Section Placeholder.

Variable c : ascii.









End Placeholder.



Section Hole.

Variable c : ascii.
Variable S : string.
Hypothesis c_ordinary : ordinary c = true.
Hypothesis c_not_colon : Ascii.eqb c ":" = false.
Hypothesis S_fresh : hasChar c S = false.




End Hole.

(** ** The two [replace] calls around a character they keep *)





Section Fresh.

Variable c : ascii.
Hypothesis c_not_dot : Ascii.eqb c "." = false.
Hypothesis c_not_star : Ascii.eqb c "*" = false.




End Fresh.




(** * The claims *)

(** ** C1 *)

(** C1, as stated, fails: on a context that has no registry yet,
    [publish(3)] and [unsubscribe(3)] complete normally, although 3 is
    neither a string nor a RegExp. *)
Lemma invalid_topics_without_registry :
  typeof (VNumber three) <> "string"
  /\ instanceofRegExp (VNumber three) = false
  /\ publish (list fnref) logging fresh (VNumber three) VUndefined []
     = (Normal [], mkPstate [] [] [])
  /\ unsubscribe fresh (VNumber three) VUndefined = (Normal tt, fresh)
  /\ (forall e, fst (publish (list fnref) logging fresh (VNumber three) VUndefined [])
                <> Throw e).
Proof.
  repeat split; try reflexivity; simpl; discriminate.
Qed.

(** C1, amended: when [topics] is neither a string nor a RegExp,
    [publish] and [unsubscribe] throw the TypeError on a context whose
    registry exists, before any subscriber is called and leaving the
    context as it is; on a context without registry they return normally
    ([publish] with an empty array). *)
Theorem invalid_topics_TypeError (W : Type)
    (invoke : fnref -> Context -> value -> W -> returned * W)
    (this : Context) (topics subscriber message : value) (w : W) :
  typeof topics <> "string" ->
  instanceofRegExp topics = false ->
  match _pubsub this with
  | Some _ =>
      publish W invoke this topics message w
      = (Throw topicsTypeError, mkPstate [] [] w)
      /\ unsubscribe this topics subscriber = (Throw topicsTypeError, this)
  | None =>
      publish W invoke this topics message w = (Normal [], mkPstate [] [] w)
      /\ unsubscribe this topics subscriber = (Normal tt, this)
  end.
Proof.
  intros Hs Hr. unfold publish, unsubscribe, forEachTopic.
  destruct (_pubsub this) as [ns|]; [| split; reflexivity].
  destruct topics; simpl in *; try (split; reflexivity);
    [exfalso; apply Hs; reflexivity | discriminate].
Qed.

Lemma invalid_topics_TypeError_witness :
  publish (list fnref) logging (subscribed fresh "a" 1) (VNumber three) VUndefined []
  = (Throw topicsTypeError, mkPstate [] [] [])
  /\ unsubscribe (subscribed fresh "a" 1) (VNumber three) VUndefined
     = (Throw topicsTypeError, subscribed fresh "a" 1).
Proof.
  apply (invalid_topics_TypeError (list fnref) logging (subscribed fresh "a" 1)
           (VNumber three) VUndefined VUndefined []).
  - simpl; discriminate.
  - reflexivity.
Defined.

(** ** C2 *)

(** C2: the code departs from the claim.  The characters of the
    specification keep their RegExp meaning: ['a.c'] selects the key
    [abc], which is not the identical string, and ['a+b'] does not
    select the key [a+b], which is; and ['('] makes [publish] throw a
    SyntaxError. *)
Theorem literal_specification_is_a_pattern :
  hasChar "*" "a.c" = false
  /\ selects (VString "a.c") "abc" = Some true
  /\ fst (publish (list fnref) logging (subscribed fresh "abc" 1)
            (VString "a.c") VUndefined [])
     = Normal [VObject 1]
  /\ hasChar "*" "a+b" = false
  /\ selects (VString "a+b") "a+b" = Some false
  /\ fst (publish (list fnref) logging (subscribed fresh "a+b" 1)
            (VString "a+b") VUndefined [])
     = Normal []
  /\ fst (publish (list fnref) logging (subscribed fresh "(" 1)
            (VString "(") VUndefined [])
     = Throw SyntaxError.
Proof. repeat split; reflexivity. Qed.

(** ** C3 *)




(** What a [publish] that completes normally has done. *)
Lemma publish_Normal (W : Type)
    (invoke : fnref -> Context -> value -> W -> returned * W)
    (this : Context) (topics : value) (re : RegExp)
    (message : value) (w : W) (rs : list value) (st : pstate W) :
  toRegExp topics = Normal re ->
  publish W invoke this topics message w = (Normal rs, st) ->
  returning W invoke this message (visited (registryOf this) re) w rs (world st)
  /\ results st = rs
  /\ invoked st = visited (registryOf this) re.
Proof.
  intros Hre.
  rewrite (publish_visited_any W invoke this message topics re w Hre).
  destruct (callSubscribers W invoke this message (visited (registryOf this) re)
              (mkPstate [] [] w)) as [[u|e|] st'] eqn:E;
    intros H; inversion H; subst.
  apply callSubscribers_Normal in E as [vs [Hr [Hres Hinv]]]; simpl in *.
  rewrite Hres; repeat split; assumption.
Qed.

(** ** C4 *)

(** C4, as stated, fails: after [subscribe('b', f1)] and
    [subscribe('1', f2)], [publish('*')] calls [f2] before [f1], because
    the [for ... in] loop enumerates the array index [1] before the key
    [b]; in creation order [f1] would come first. *)
Lemma publish_visits_array_indices_first :
  _pubsub numbered = Some [("b", [1]); ("1", [2])]
  /\ toRegExp (VString "*") = Normal anything
  /\ publish (list fnref) logging numbered (VString "*") VUndefined []
     = (Normal [VObject 2; VObject 1],
        mkPstate [VObject 2; VObject 1] [2; 1] [2; 1])
  /\ visitedInCreationOrder [("b", [1]); ("1", [2])] anything = [1; 2].
Proof. repeat split; reflexivity. Qed.

(** C4, amended: [publish] returns one flat array holding exactly the
    values returned by the subscribers it called, each as returned, in
    the order of the calls: the selected topics in enumeration order
    (array indices first, ascending, then the other keys in creation
    order), and under each topic the subscribers in subscription order.
    It does return that array whenever every subscriber returns. *)
Theorem publish_results (W : Type)
    (invoke : fnref -> Context -> value -> W -> returned * W)
    (this : Context) (topics : value) (re : RegExp)
    (message : value) (w : W) (rs : list value) (st : pstate W) :
  toRegExp topics = Normal re ->
  publish W invoke this topics message w = (Normal rs, st)
  <-> returning W invoke this message (visited (registryOf this) re) w rs (world st)
      /\ results st = rs
      /\ invoked st = visited (registryOf this) re.
Proof.
  intros Hre. split.
  - apply publish_Normal; assumption.
  - intros [Hr [Hres Hinv]].
    rewrite (publish_visited_any W invoke this message topics re w Hre).
    rewrite (callSubscribers_returning W invoke this message
               (visited (registryOf this) re) rs (world st) (mkPstate [] [] w) Hr);
      simpl.
    destruct st as [r i w']; simpl in *; subst; reflexivity.
Qed.

Lemma publish_results_witness :
  publish (list fnref) logging pair (VString "*") (VString "m") []
  = (Normal [VObject 1; VObject 3; VObject 2],
     mkPstate [VObject 1; VObject 3; VObject 2] [1; 3; 2] [1; 3; 2]).
Proof.
  apply (publish_results (list fnref) logging pair
           (VString "*") anything (VString "m") []
           [VObject 1; VObject 3; VObject 2]
           (mkPstate [VObject 1; VObject 3; VObject 2] [1; 3; 2] [1; 3; 2])
           eq_refl).
  split; [| split; reflexivity].
  apply (returning_cons _ logging pair (VString "m") 1 [3; 2] [] (VObject 1) [1]
           [VObject 3; VObject 2] [1; 3; 2] eq_refl).
  apply (returning_cons _ logging pair (VString "m") 3 [2] [1] (VObject 3) [1; 3]
           [VObject 2] [1; 3; 2] eq_refl).
  apply (returning_cons _ logging pair (VString "m") 2 [] [1; 3] (VObject 2) [1; 3; 2]
           [] [1; 3; 2] eq_refl).
  apply returning_nil.
Defined.

(** ** C5 *)

Lemma indexOfRef_last (subs : list fnref) (f : fnref) :
  isSome (indexOfRef (subs ++ [f]) f) = true.
Proof.
  destruct (indexOfRef (subs ++ [f]) f) eqn:E; [reflexivity |].
  apply indexOfRef_None in E. exfalso; apply E.
  apply in_or_app; right; left; reflexivity.
Qed.

(** After [subscribe(t, f)] the array under [t] holds [f]. *)
Lemma subscribe_binds (this : Context) (t : string) (f : fnref) :
  subscribable this = true ->
  exists ns subs,
    _pubsub (snd (subscribe this (VString t) (VFunction f))) = Some ns
    /\ getProp ns t = Some subs
    /\ isSome (indexOfRef subs f) = true.
Proof.
  intros Hable.
  rewrite (subscribe_unfold this t f Hable); cbn [snd _pubsub]; cbv zeta.
  eexists; eexists; split; [reflexivity |]. split.
  - rewrite getProp_setProp, String.eqb_refl; reflexivity.
  - set (subs := subscribersOf _ t).
    destruct (indexOfRef subs f) eqn:E; simpl; [rewrite E; reflexivity |].
    apply indexOfRef_last.
Qed.

Lemma subscribe_again (this : Context) (t : string) (f : fnref) :
  subscribable this = true ->
  subscribe (snd (subscribe this (VString t) (VFunction f))) (VString t) (VFunction f)
  = (Normal tt, snd (subscribe this (VString t) (VFunction f))).
Proof.
  intros Hable.
  pose proof (subscribe_subscribable this (VString t) (VFunction f) Hable) as Hable1.
  set (once := snd (subscribe this (VString t) (VFunction f))) in *.
  destruct (subscribe_binds this t f Hable) as [ns [subs [Hns [Hget Hf]]]].
  fold once in Hns. rewrite (subscribe_unfold once t f Hable1), Hns; cbv zeta.
  unfold subscribersOf; rewrite Hget, Hf.
  rewrite (setProp_same _ _ _ Hget). destruct once; simpl in *; congruence.
Qed.

Lemma matching_flagless (r : regex) (i : nat) (keys : list string) :
  matching (mkRegExp r false false i) keys
  = filter (fun key => isSome (scan r key false key)) keys.
Proof.
  induction keys as [|k keys IH]; simpl; [reflexivity |].
  rewrite test_flagless. destruct (isSome (scan r k false k)); rewrite IH; reflexivity.
Qed.

Lemma filter_eqb_NoDup (t : string) (keys : list string) :
  NoDup keys -> In t keys -> filter (fun key => String.eqb key t) keys = [t].
Proof.
  induction keys as [|k keys IH]; simpl; intros Hnd Hin; [contradiction |].
  inversion Hnd as [|? ? Hnot Hnd']; subst.
  destruct (String.eqb_spec k t) as [->|Hne].
  - f_equal. clear -Hnot. induction keys as [|k keys IH]; simpl; [reflexivity |].
    destruct (String.eqb_spec k t) as [->|Hne].
    + exfalso; apply Hnot; left; reflexivity.
    + apply IH; intros Hin; apply Hnot; right; exact Hin.
  - destruct Hin as [E|Hin]; [contradiction | apply IH; assumption].
Qed.

(** A topic of ordinary characters, used as the specification, selects
    itself and nothing else. *)
Lemma matching_ordinary (t : string) (ns : registry) :
  allChars ordinary t = true ->
  NoDup (map fst ns) ->
  In t (map fst ns) ->
  exists re, toRegExp (VString t) = Normal re /\ matching re (forInKeys ns) = [t].
Proof.
  intros Hord Hnd Hin.
  assert (Hos : allChars ordinaryOrStar t = true).
  { apply (allChars_weaken ordinary); [| exact Hord].
    intros c Hc; unfold ordinaryOrStar; rewrite Hc; reflexivity. }
  pose proof (toRegExp_escapeStars t Hos) as Hre.
  rewrite (escapeStars_ordinary t Hord) in Hre.
  eexists; split; [exact Hre |].
  rewrite matching_flagless.
  rewrite (filter_ext _ (fun key => String.eqb key t)).
  - apply filter_eqb_NoDup; [apply forInKeys_NoDup; exact Hnd |].
    apply forInKeys_In; exact Hin.
  - intros key. rewrite scan_anchored, matcher_literal_Eol.
    destruct (String.eqb key t); reflexivity.
Qed.

(** C5, as stated, fails on its last part.  After [f3] has been
    subscribed twice to [b], behind a subscriber that throws,
    [publish('b')] does not call [f3]; and after [f1] has been subscribed
    twice to [a+b], [publish('a+b')] does not call it either, since the
    specification ['a+b'] does not select the key [a+b]. *)
Lemma publish_may_not_call_the_subscriber :
  _pubsub (subscribed trio "b" 3) = Some [("b", [1; 9; 3])]
  /\ publish (list fnref) failing (subscribed trio "b" 3) (VString "b") VUndefined []
     = (Throw (Thrown (VString "boom")), mkPstate [VObject 1] [1; 9] [1; 9])
  /\ count_occ Nat.eq_dec [1; 9] 3 = 0
  /\ publish (list fnref) logging (subscribed (subscribed fresh "a+b" 1) "a+b" 1)
       (VString "a+b") VUndefined []
     = (Normal [], mkPstate [] [] []).
Proof. repeat split; reflexivity. Qed.

(** C5, amended: in every context the methods can build, no array of
    the registry holds a function reference twice; subscribing the same
    subscriber to the same topic a second time changes nothing; and a
    later [publish] whose specification selects that topic and no other,
    as the topic itself does when it is made of ordinary characters, and
    which completes normally, calls the subscriber exactly once. *)
Theorem subscribe_at_most_once (this : Context) (t : string) (f : fnref) :
  reachable this ->
  let once := snd (subscribe this (VString t) (VFunction f)) in
  let twice := snd (subscribe once (VString t) (VFunction f)) in
  (forall ns topic subs g,
      _pubsub this = Some ns -> getProp ns topic = Some subs ->
      count_occ Nat.eq_dec subs g <= 1)
  /\ subscribe once (VString t) (VFunction f) = (Normal tt, once)
  /\ (forall W (invoke : fnref -> Context -> value -> W -> returned * W)
             topics re message w rs st,
         toRegExp topics = Normal re ->
         matching re (forInKeys (registryOf twice)) = [t] ->
         publish W invoke twice topics message w = (Normal rs, st) ->
         count_occ Nat.eq_dec (invoked st) f = 1)
  /\ (allChars ordinary t = true ->
      forall W (invoke : fnref -> Context -> value -> W -> returned * W)
             message w rs st,
        publish W invoke twice (VString t) message w = (Normal rs, st) ->
        count_occ Nat.eq_dec (invoked st) f = 1).
Proof.
  intros Hreach once twice.
  pose proof (reachable_subscribable this Hreach) as Hable.
  assert (Etwice : twice = once)
    by (unfold twice, once; rewrite (subscribe_again this t f Hable); reflexivity).
  assert (Hwf : wfContext once)
    by (apply reachable_wf, reach_subscribe; exact Hreach).
  destruct (subscribe_binds this t f Hable) as [ns1 [subs1 [Hns1 [Hget1 Hf1]]]].
  fold once in Hns1.
  unfold wfContext in Hwf; rewrite Hns1 in Hwf. destruct Hwf as [Hkeys1 Hsubs1].
  assert (Hreg : registryOf once = ns1) by (unfold registryOf; rewrite Hns1; reflexivity).
  assert (Hthird : forall W (invoke : fnref -> Context -> value -> W -> returned * W)
             topics re message w rs st,
         toRegExp topics = Normal re ->
         matching re (forInKeys (registryOf twice)) = [t] ->
         publish W invoke twice topics message w = (Normal rs, st) ->
         count_occ Nat.eq_dec (invoked st) f = 1).
  { intros W invoke topics re message w rs st Hre Hsel Hpub.
    rewrite Etwice in *.
    apply (publish_Normal W invoke once topics re message w rs st Hre)
      in Hpub as [_ [_ Hinv]].
    rewrite Hinv. unfold visited; rewrite Hsel; simpl; rewrite app_nil_r.
    rewrite Hreg. unfold subscribersOf; rewrite Hget1.
    rewrite Forall_forall in Hsubs1.
    specialize (Hsubs1 _ (getProp_Some_In _ _ _ Hget1)); simpl in Hsubs1.
    apply NoDup_count_occ'; [exact Hsubs1 |].
    destruct (indexOfRef subs1 f) eqn:E; [| discriminate].
    destruct (in_dec Nat.eq_dec f subs1) as [Hin|Hnot]; [exact Hin |].
    apply indexOfRef_None in Hnot; congruence. }
  split; [| split; [| split]].
  - intros ns topic subs g Hns Hget.
    pose proof (reachable_wf this Hreach) as Hwf.
    unfold wfContext in Hwf; rewrite Hns in Hwf. destruct Hwf as [_ Hsubs].
    rewrite Forall_forall in Hsubs.
    specialize (Hsubs _ (getProp_Some_In _ _ _ Hget)); simpl in Hsubs.
    apply (proj1 (NoDup_count_occ Nat.eq_dec subs) Hsubs).
  - apply subscribe_again; exact Hable.
  - exact Hthird.
  - intros Hord W invoke message w rs st Hpub.
    assert (Hin : In t (map fst ns1)).
    { apply getProp_Some_In in Hget1. apply in_map_iff.
      exists (t, subs1); split; [reflexivity | exact Hget1]. }
    destruct (matching_ordinary t ns1 Hord Hkeys1 Hin) as [re [Hre Hsel]].
    apply (Hthird W invoke (VString t) re message w rs st);
      [exact Hre | rewrite Etwice, Hreg; exact Hsel | exact Hpub].
Qed.

Lemma subscribe_at_most_once_witness :
  count_occ Nat.eq_dec
    (invoked (snd (publish (list fnref) logging
                     (subscribed (subscribed fresh "b" 1) "b" 1)
                     (VString "b") VUndefined [])))
    1
  = 1.
Proof.
  exact (proj2 (proj2 (proj2 (subscribe_at_most_once fresh "b" 1 reach_fresh)))
           eq_refl (list fnref) logging VUndefined []
           [VObject 1] (mkPstate [VObject 1] [1] [1]) eq_refl).
Defined.

(** ** C6 *)



Lemma pair_wf : wfRegistry [("b", [1; 3]); ("c", [2])].
Proof.
  split.
  - simpl. constructor; [intros [E|[]]; discriminate E |].
    constructor; [intros [] | constructor].
  - constructor; [| constructor; [| constructor]]; simpl.
    + constructor; [intros [E|[]]; discriminate E |].
      constructor; [intros [] | constructor].
    + constructor; [intros [] | constructor].
Defined.


(** ** C7 *)

(** C7: when the subscribers met before [f] all return and [f] throws
    [v], [publish] ends by throwing [v] itself; [f] is the last
    subscriber called, so none of those that come after it, under the
    same topic or a later one, is called; and the call yields no array. *)
Theorem publish_subscriber_throws (W : Type)
    (invoke : fnref -> Context -> value -> W -> returned * W)
    (this : Context) (topics : value) (re : RegExp)
    (message : value) (w : W)
    (pre post : list fnref) (f : fnref) (vs : list value) (v : value) (w1 w2 : W) :
  toRegExp topics = Normal re ->
  visited (registryOf this) re = pre ++ f :: post ->
  returning W invoke this message pre w vs w1 ->
  invoke f this message w1 = (Raise v, w2) ->
  publish W invoke this topics message w
  = (Throw (Thrown v), mkPstate vs (pre ++ [f]) w2).
Proof.
  intros Hre Hvis Hpre Hf.
  rewrite (publish_visited_any W invoke this message topics re w Hre), Hvis.
  rewrite (callSubscribers_raise W invoke this message pre post f vs v w1 w2
             (mkPstate [] [] w) Hpre Hf).
  reflexivity.
Qed.

Lemma publish_subscriber_throws_witness :
  publish (list fnref) failing trio (VString "*") VUndefined []
  = (Throw (Thrown (VString "boom")), mkPstate [VObject 1] [1; 9] [1; 9]).
Proof.
  apply (publish_subscriber_throws (list fnref) failing trio
           (VString "*") anything VUndefined [] [1] [3] 9 [VObject 1]
           (VString "boom") [1] [1; 9] eq_refl eq_refl).
  - apply (returning_cons _ failing trio VUndefined 1 [] [] (VObject 1) [1] [] [1]
             eq_refl).
    apply returning_nil.
  - reflexivity.
Defined.

(** ** C8 *)

(** C8: the code departs from the claim on its first half.  The anchors
    are put around the text of the specification, whose characters keep
    their RegExp meaning: in ['a|b*'] the second alternative has no
    anchor at its start, and the key [xb] is selected through its proper
    substring [b].  The second half holds: a RegExp is used as it is,
    and the unanchored pattern [a.e] selects [babe]. *)
Theorem alternation_escapes_the_anchors :
  toRegExp (VString "a|b*")
  = Normal (mkRegExp
              (Alt (Seq Bol (Seq (Chr "a") Empty))
                   (Seq (Chr "b") (Seq (Star Dot) (Seq Eol Empty))))
              false false 0)
  /\ selects (VString "a|b*") "xb" = Some true
  /\ fst (publish (list fnref) logging (subscribed fresh "xb" 1)
            (VString "a|b*") VUndefined [])
     = Normal [VObject 1]
  /\ selects (VString "b*") "xb" = Some false
  /\ (forall R, toRegExp (VRegExp R) = Normal R)
  /\ selects (VRegExp (mkRegExp (Seq (Chr "a") (Seq Dot (Chr "e"))) false false 0))
       "babe"
     = Some true.
Proof. repeat split; reflexivity. Qed.

(** ** C9 *)

(** C9, as stated, fails on a context that is not extensible and has no
    registry yet, such as a frozen object on which nothing was ever
    subscribed: with a string and a function, [subscribe] still throws
    a TypeError, the one of [Object.defineProperty]. *)
Lemma subscribe_on_frozen_context :
  typeof (VString "a") = "string"
  /\ typeof (VFunction 1) = "function"
  /\ subscribe frozen (VString "a") (VFunction 1)
     = (Throw (TypeError "Cannot define property _pubsub, object is not extensible"),
        frozen).
Proof. repeat split; reflexivity. Qed.

(** C9, amended: on every context, [subscribe] throws one of its two
    invalid-argument TypeErrors exactly when [topic] is not a string or
    [subscriber] is not a function; it throws a TypeError at all exactly
    in that case or when the context has no registry and is not
    extensible, so that on a context that is extensible or has its
    registry already a TypeError means an invalid argument; it throws
    nothing else; and whenever it throws, the context is the one it
    was given. *)
Theorem subscribe_TypeError (this : Context) (topic subscriber : value) :
  ((fst (subscribe this topic subscriber)
    = Throw (TypeError "Expected topic to be a string.")
    \/ fst (subscribe this topic subscriber)
       = Throw (TypeError "Expected subscriber to be a function."))
   <-> typeof topic <> "string" \/ typeof subscriber <> "function")
  /\ ((exists message,
          fst (subscribe this topic subscriber) = Throw (TypeError message))
      <-> typeof topic <> "string" \/ typeof subscriber <> "function"
          \/ subscribable this = false)
  /\ (subscribable this = true ->
      ((exists message,
           fst (subscribe this topic subscriber) = Throw (TypeError message))
       <-> typeof topic <> "string" \/ typeof subscriber <> "function"))
  /\ (fst (subscribe this topic subscriber) = Normal tt
      \/ (exists message,
             fst (subscribe this topic subscriber) = Throw (TypeError message))
         /\ snd (subscribe this topic subscriber) = this).
Proof.
  assert (Hbad : typeof topic <> "string" \/ typeof subscriber <> "function" ->
                 (fst (subscribe this topic subscriber)
                  = Throw (TypeError "Expected topic to be a string.")
                  \/ fst (subscribe this topic subscriber)
                     = Throw (TypeError "Expected subscriber to be a function."))
                 /\ snd (subscribe this topic subscriber) = this).
  { intros [H|H].
    - destruct topic; try (split; [left |]; reflexivity).
      exfalso; apply H; reflexivity.
    - destruct topic; try (split; [left |]; reflexivity).
      destruct subscriber; try (split; [right |]; reflexivity).
      exfalso; apply H; reflexivity. }
  assert (Hgood : typeof topic = "string" -> typeof subscriber = "function" ->
                  exists t f, topic = VString t /\ subscriber = VFunction f).
  { intros Ht Hf. destruct topic; try discriminate Ht.
    destruct subscriber; try discriminate Hf. eauto. }
  assert (Hdec : typeof topic <> "string" \/ typeof subscriber <> "function"
                 \/ (typeof topic = "string" /\ typeof subscriber = "function")).
  { destruct (string_dec (typeof topic) "string") as [Ht|Ht]; [| left; exact Ht].
    destruct (string_dec (typeof subscriber) "function") as [Hf|Hf]; auto. }
  assert (Hany : (exists message,
                     fst (subscribe this topic subscriber) = Throw (TypeError message))
                 <-> typeof topic <> "string" \/ typeof subscriber <> "function"
                     \/ subscribable this = false).
  { split.
    - intros [message H].
      destruct Hdec as [Ht|[Hf|[Ht Hf]]]; [auto | auto |].
      destruct (Hgood Ht Hf) as [t [f [-> ->]]].
      destruct (subscribable this) eqn:Hable; [| auto].
      rewrite (subscribe_unfold this t f Hable) in H; discriminate H.
    - intros [H|[H|H]].
      + destruct (Hbad (or_introl H)) as [[E|E] _]; eexists; exact E.
      + destruct (Hbad (or_intror H)) as [[E|E] _]; eexists; exact E.
      + destruct Hdec as [Ht|[Hf|[Ht Hf]]].
        * destruct (Hbad (or_introl Ht)) as [[E|E] _]; eexists; exact E.
        * destruct (Hbad (or_intror Hf)) as [[E|E] _]; eexists; exact E.
        * destruct (Hgood Ht Hf) as [t [f [-> ->]]].
          rewrite (subscribe_not_subscribable this t f H). eexists; reflexivity. }
  split; [| split; [exact Hany | split]].
  - split; [| intros H; exact (proj1 (Hbad H))].
    intros H. destruct Hdec as [Ht|[Hf|[Ht Hf]]]; [auto | auto |].
    destruct (Hgood Ht Hf) as [t [f [-> ->]]].
    destruct (subscribable this) eqn:Hable.
    + rewrite (subscribe_unfold this t f Hable) in H.
      destruct H as [H|H]; discriminate H.
    + rewrite (subscribe_not_subscribable this t f Hable) in H.
      destruct H as [H|H]; discriminate H.
  - intros Hable. split.
    + intros H. apply Hany in H as [H|[H|H]]; [auto | auto | congruence].
    + intros [H|H]; apply Hany; auto.
  - destruct Hdec as [Ht|[Hf|[Ht Hf]]].
    + right. destruct (Hbad (or_introl Ht)) as [[E|E] Hsame];
        (split; [eexists; exact E | exact Hsame]).
    + right. destruct (Hbad (or_intror Hf)) as [[E|E] Hsame];
        (split; [eexists; exact E | exact Hsame]).
    + destruct (Hgood Ht Hf) as [t [f [-> ->]]].
      destruct (subscribable this) eqn:Hable.
      * left. rewrite (subscribe_unfold this t f Hable); reflexivity.
      * right. rewrite (subscribe_not_subscribable this t f Hable).
        split; [eexists |]; reflexivity.
Qed.

Lemma subscribe_TypeError_witness :
  (exists message,
      fst (subscribe fresh (VString "a") (VNumber three)) = Throw (TypeError message))
  /\ (exists message,
         fst (subscribe fresh (VNumber three) (VFunction 1)) = Throw (TypeError message))
  /\ (typeof (VString "a") <> "string" \/ typeof (VFunction 1) <> "function"
      \/ subscribable frozen = false).
Proof.
  split; [| split].
  - apply (proj2 (proj1 (proj2 (subscribe_TypeError fresh (VString "a")
                                  (VNumber three))))).
    right; left; simpl; discriminate.
  - apply (proj2 (proj1 (proj2 (subscribe_TypeError fresh (VNumber three)
                                  (VFunction 1))))).
    left; simpl; discriminate.
  - apply (proj1 (proj1 (proj2 (subscribe_TypeError frozen (VString "a")
                                  (VFunction 1))))).
    eexists; reflexivity.
Defined.

(** ** C10 *)

Example falsy_values :
  map truthy [VUndefined; VNull; VBool false; VNumber positiveZero;
              VNumber negativeZero; VNumber notANumber; VString ""]
  = [false; false; false; false; false; false; false]
  /\ map truthy [VNumber three; VString "0"; VFunction 1; VObject 1]
     = [true; true; true; true].
Proof. split; reflexivity. Qed.

(** C10: a falsy second argument makes [unsubscribe] behave exactly as
    when the argument is left out ([undefined]); on a context with a
    registry and a specification that compiles, the entries of the
    selected topics are deleted and the call completes normally. *)
Theorem unsubscribe_falsy_subscriber (this : Context) (topics subscriber : value) :
  truthy subscriber = false ->
  unsubscribe this topics subscriber = unsubscribe this topics VUndefined
  /\ forall ns re,
      _pubsub this = Some ns ->
      NoDup (map fst ns) ->
      toRegExp topics = Normal re ->
      unsubscribe this topics subscriber
      = (Normal tt,
         mkContext
           (Some (filter (fun e => negb (memKey (fst e) (matching re (forInKeys ns))))
                    ns))
           (extensible this)).
Proof.
  intros Ht. split.
  - unfold unsubscribe, forEachTopic.
    destruct (_pubsub this) as [ns|]; [| reflexivity].
    destruct (toRegExp topics) as [re|e|]; [| reflexivity | reflexivity].
    rewrite (forIn_ext unit (unsubscribeCallback subscriber)
               (unsubscribeCallback VUndefined)); [reflexivity |].
    intros subs topic ns' s. unfold unsubscribeCallback; rewrite Ht; reflexivity.
  - intros ns re Hns Hkeys Hre.
    unfold unsubscribe, forEachTopic; rewrite Hns, Hre.
    rewrite (forIn_delete subscriber _ Ht (forInKeys_NoDup ns Hkeys) re ns);
      [reflexivity | intros k; apply forInKeys_In].
Qed.

Lemma unsubscribe_falsy_subscriber_witness :
  unsubscribe pair (VString "b") (VNumber positiveZero)
  = unsubscribe pair (VString "b") VUndefined
  /\ unsubscribe pair (VString "b") (VString "")
     = (Normal tt, mkContext (Some [("c", [2])]) true).
Proof.
  split.
  - exact (proj1 (unsubscribe_falsy_subscriber pair (VString "b") (VNumber positiveZero) eq_refl)).
  - exact (proj2 (unsubscribe_falsy_subscriber pair (VString "b") (VString "") eq_refl)
             [("b", [1; 3]); ("c", [2])] onlyB eq_refl (proj1 pair_wf) eq_refl).
Defined.

(** * Further properties of the code *)

(** ** Wildcard specifications *)

Lemma allChars_app (p : ascii -> bool) (s1 s2 : string) :
  allChars p (s1 ++ s2) = allChars p s1 && allChars p s2.
Proof.
  induction s1 as [|c s1 IH]; simpl; [reflexivity |].
  rewrite IH, andb_assoc; reflexivity.
Qed.

Lemma ordinary_ordinaryOrStar (s : string) :
  allChars ordinary s = true -> allChars ordinaryOrStar s = true.
Proof.
  apply allChars_weaken. intros c Hc; unfold ordinaryOrStar; rewrite Hc; reflexivity.
Qed.

(** A RegExp made from a string has no flag and starts at index 0. *)
Lemma glob_ordinary (s key : string) :
  allChars ordinary s = true -> glob s key = String.eqb key s.
Proof.
  revert key; induction s as [|c s IH]; intros key H; simpl.
  - destruct key; reflexivity.
  - simpl in H; apply andb_prop in H as [Hc H].
    rewrite (ordinary_not c "*" Hc eq_refl).
    destruct key as [|d key]; [reflexivity |]. simpl.
    rewrite (Ascii.eqb_sym d c), (IH key H); reflexivity.
Qed.

Lemma glob_prefix (p rest key : string) :
  allChars ordinary p = true ->
  glob (p ++ rest) key = true <-> exists key', key = (p ++ key')%string /\ glob rest key' = true.
Proof.
  revert key; induction p as [|c p IH]; intros key H; simpl.
  - split; [intros Hg; exists key; split; [reflexivity | exact Hg] |].
    intros [key' [-> Hg]]; exact Hg.
  - simpl in H; apply andb_prop in H as [Hc H].
    rewrite (ordinary_not c "*" Hc eq_refl).
    destruct key as [|d key].
    + split; [discriminate | intros [key' [E _]]; discriminate E].
    + split.
      * intros Hg; apply andb_prop in Hg as [Hcd Hg].
        apply Ascii.eqb_eq in Hcd; subst d.
        apply (IH key H) in Hg as [key' [-> Hg]].
        exists key'; split; [reflexivity | exact Hg].
      * intros [key' [E Hg]]; inversion E; subst.
        rewrite Ascii.eqb_refl; simpl. apply (IH _ H). eauto.
Qed.

Lemma starOf_spec (g : string -> bool) (key : string) :
  starOf g key = true
  <-> exists mid key',
        key = (mid ++ key')%string
        /\ allChars notLineTerminator mid = true /\ g key' = true.
Proof.
  induction key as [|d key IH]; simpl.
  - rewrite orb_false_r. split.
    + intros Hg; exists "", ""; repeat split; assumption.
    + intros [mid [key' [E [_ Hg]]]].
      destruct mid; [simpl in E; subst; exact Hg | discriminate E].
  - split.
    + intros H; apply orb_prop in H as [Hg|H].
      * exists "", (String d key); repeat split; assumption.
      * apply andb_prop in H as [Hd H].
        apply IH in H as [mid [key' [-> [Hmid Hg]]]].
        exists (String d mid), key'; simpl; repeat split; [| exact Hg].
        unfold notLineTerminator at 1; rewrite Hd, Hmid; reflexivity.
    + intros [mid [key' [E [Hmid Hg]]]].
      destruct mid as [|c mid]; simpl in E.
      * subst key'; rewrite Hg; reflexivity.
      * inversion E; subst. simpl in Hmid; apply andb_prop in Hmid as [Hc Hmid].
        unfold notLineTerminator in Hc; rewrite Hc; simpl.
        replace (starOf g (mid ++ key')%string) with true;
          [apply orb_true_r |].
        symmetry; apply IH; eauto.
Qed.

Lemma glob_star_run (p s key : string) :
  glob (p ++ "**" ++ s) key = glob (p ++ "*" ++ s) key.
Proof.
  revert key; induction p as [|c p IH]; intros key.
  - apply starOf_idempotent.
  - simpl. destruct (Ascii.eqb c "*").
    + apply starOf_ext; exact IH.
    + destruct key as [|d key]; [reflexivity | rewrite IH; reflexivity].
Qed.

(** X1: a string specification made of ordinary characters and
    asterisks compiles, and [forEachTopic] then visits exactly the keys
    that conform to it as a whole, an asterisk standing for any run of
    characters other than line terminators; [test] leaves the compiled
    RegExp as it is. *)
Theorem wildcard_specification (spec : string) :
  allChars ordinaryOrStar spec = true ->
  exists re,
    toRegExp (VString spec) = Normal re
    /\ (forall key, test re key = (glob spec key, re))
    /\ (forall keys, matching re keys = filter (glob spec) keys).
Proof.
  intros Hall.
  destruct (toRegExp (VString spec)) as [re| |] eqn:Hre;
    try (pose proof (selects_wildcards spec "" Hall) as H;
         unfold selects in H; rewrite Hre in H; discriminate H).
  assert (Htest : forall key, fst (test re key) = glob spec key).
  { intros key. pose proof (selects_wildcards spec key Hall) as H.
    unfold selects in H; rewrite Hre in H; inversion H; reflexivity. }
  destruct (toRegExp_stateless (VString spec) re eq_refl Hre) as [Hg Hy].
  exists re; split; [reflexivity | split].
  - intros key. rewrite (test_stateless re key Hg Hy), Htest; reflexivity.
  - intros keys. rewrite (matching_stateless re keys Hg Hy).
    apply filter_ext; exact Htest.
Qed.

Lemma wildcard_specification_witness :
  exists re,
    toRegExp (VString "a*e") = Normal re
    /\ matching re ["abe"; "ape"; "babe"; "ae"; "abey"] = ["abe"; "ape"; "ae"].
Proof.
  destruct (wildcard_specification "a*e" eq_refl) as [re [Hre [_ Hm]]].
  exists re; split; [exact Hre | exact (Hm ["abe"; "ape"; "babe"; "ae"; "abey"])].
Defined.

(** X2: with ordinary text before and after a single asterisk, the
    specification selects the keys that start with the first text, end
    with the second, and have no line terminator in between (the middle
    may be empty). *)
Theorem single_wildcard (p s : string) :
  allChars ordinary p = true ->
  allChars ordinary s = true ->
  forall key,
    selects (VString (p ++ "*" ++ s)) key = Some true
    <-> exists mid,
          key = (p ++ mid ++ s)%string /\ allChars notLineTerminator mid = true.
Proof.
  intros Hp Hs key.
  assert (Hall : allChars ordinaryOrStar (p ++ "*" ++ s) = true).
  { rewrite !allChars_app, (ordinary_ordinaryOrStar p Hp),
      (ordinary_ordinaryOrStar s Hs); reflexivity. }
  rewrite (selects_wildcards _ key Hall).
  split.
  - intros H; injection H as Hg.
    apply (glob_prefix p _ key Hp) in Hg as [key' [-> Hg]].
    change (starOf (glob s) key' = true) in Hg.
    apply starOf_spec in Hg as [mid [key'' [-> [Hmid Hg]]]].
    rewrite (glob_ordinary s key'' Hs) in Hg. apply String.eqb_eq in Hg; subst.
    exists mid; split; [reflexivity | exact Hmid].
  - intros [mid [-> Hmid]]. f_equal.
    apply (proj2 (glob_prefix p _ _ Hp)).
    exists (mid ++ s)%string; split; [reflexivity |].
    change (starOf (glob s) (mid ++ s)%string = true).
    apply (proj2 (starOf_spec _ _)). exists mid, s.
    split; [reflexivity |]. split; [exact Hmid |].
    rewrite (glob_ordinary s s Hs); apply String.eqb_refl.
Qed.

Lemma single_wildcard_witness :
  selects (VString "A*y") "Aunty" = Some true
  /\ selects (VString "A*y") "Ay" = Some true.
Proof.
  split.
  - apply (proj2 (single_wildcard "A" "y" eq_refl eq_refl "Aunty")).
    exists "unt"; split; reflexivity.
  - apply (proj2 (single_wildcard "A" "y" eq_refl eq_refl "Ay")).
    exists ""; split; reflexivity.
Defined.

(** X3: in a specification of ordinary characters and asterisks, two
    asterisks in a row select the same keys as one. *)
Theorem asterisk_run (p s : string) :
  allChars ordinaryOrStar p = true ->
  allChars ordinaryOrStar s = true ->
  forall key,
    selects (VString (p ++ "**" ++ s)) key = selects (VString (p ++ "*" ++ s)) key
    /\ selects (VString (p ++ "*" ++ s)) key <> None.
Proof.
  intros Hp Hs key.
  assert (H1 : allChars ordinaryOrStar (p ++ "*" ++ s) = true)
    by (rewrite !allChars_app, Hp, Hs; reflexivity).
  assert (H2 : allChars ordinaryOrStar (p ++ "**" ++ s) = true)
    by (rewrite !allChars_app, Hp, Hs; reflexivity).
  rewrite (selects_wildcards _ key H1), (selects_wildcards _ key H2).
  split; [rewrite glob_star_run; reflexivity | discriminate].
Qed.

Lemma asterisk_run_witness :
  selects (VString "**a**b") "xaxb" = selects (VString "*a*b") "xaxb".
Proof.
  exact (eq_trans
           (proj1 (asterisk_run "" "a**b" eq_refl eq_refl "xaxb"))
           (proj1 (asterisk_run "*a" "b" eq_refl eq_refl "xaxb"))).
Defined.

(** ** Errors *)

Ltac smaller IH H Hlen := eapply IH; [| exact H]; simpl in Hlen |- *; lia.

(** The pattern parser throws nothing but a SyntaxError. *)
Lemma parsePattern_Throw (n : nat) :
  forall s cur stack e,
    String.length s <= n ->
    parsePattern s cur stack = Throw e -> e = SyntaxError.
Proof.
  induction n as [|n IH]; intros s cur stack e Hlen H.
  - destruct s; [| simpl in Hlen; lia].
    simpl in H. destruct stack; [discriminate H | inversion H; reflexivity].
  - destruct s as [|ch rest].
    + simpl in H. destruct stack; [discriminate H | inversion H; reflexivity].
    + simpl in Hlen. cbn [parsePattern] in H.
      destruct (classify ch).
      * destruct rest as [|q rest']; [inversion H; reflexivity |].
        destruct (Ascii.eqb q "?").
        -- destruct rest' as [|k rest'']; [inversion H; reflexivity |].
           destruct (Ascii.eqb k ":"); [| discriminate H].
           smaller IH H Hlen.
        -- smaller IH H Hlen.
      * destruct stack; [inversion H; reflexivity |].
        smaller IH H Hlen.
      * smaller IH H Hlen.
      * destruct (quantify Star cur); [| inversion H; reflexivity].
        destruct (startsWith "?" rest); [discriminate H |].
        smaller IH H Hlen.
      * destruct (quantify Plus cur); [| inversion H; reflexivity].
        destruct (startsWith "?" rest); [discriminate H |].
        smaller IH H Hlen.
      * destruct (quantify Opt cur); [| inversion H; reflexivity].
        destruct (startsWith "?" rest); [discriminate H |].
        smaller IH H Hlen.
      * destruct rest as [|e0 rest']; [inversion H; reflexivity |].
        destruct (isSyntaxCharacter e0 || Ascii.eqb e0 "/"); [| discriminate H].
        smaller IH H Hlen.
      * smaller IH H Hlen.
      * smaller IH H Hlen.
      * smaller IH H Hlen.
      * discriminate H.
      * discriminate H.
      * smaller IH H Hlen.
Qed.

(** What "make sure `topics` is a regex" can throw. *)
Lemma toRegExp_Throw (topics : value) (e : exn) :
  toRegExp topics = Throw e ->
  (e = topicsTypeError /\ typeof topics <> "string" /\ instanceofRegExp topics = false)
  \/ (e = SyntaxError /\ typeof topics = "string").
Proof.
  intros H. destruct topics; simpl in H; try discriminate H;
    try (left; inversion H; repeat split; simpl; discriminate).
  right; split; [| reflexivity].
  unfold newRegExp in H.
  destruct (parsePattern _ emptyFrame []) as [r|e'|] eqn:E; try discriminate H.
  inversion H; subst. eapply parsePattern_Throw; [apply Nat.le_refl | exact E].
Qed.

(** The callback of [unsubscribe] never throws. *)
Lemma unsubscribeCallback_Normal (v : value) (subs : list fnref) (k : string)
    (ns : registry) :
  exists ns', unsubscribeCallback v subs k ns tt = (Normal tt, (ns', tt)).
Proof.
  unfold unsubscribeCallback.
  destruct (truthy v); [destruct (indexOf subs v) |]; eexists; reflexivity.
Qed.

Lemma forIn_unsubscribe_Normal (v : value) (keys : list string) :
  forall re ns, exists ns',
    forIn (unsubscribeCallback v) keys re ns tt = (Normal tt, (ns', tt)).
Proof.
  induction keys as [|k keys IH]; intros re ns; simpl; [eexists; reflexivity |].
  destruct (getProp ns k) as [subs|]; [| apply IH].
  destruct (test re k) as [[|] re']; [| apply IH].
  destruct (unsubscribeCallback_Normal v subs k ns) as [ns1 ->]. apply IH.
Qed.

(** X4: [unsubscribe] throws only for its [topics] argument, and only
    on a context that has a registry: a TypeError when [topics] is
    neither a string nor a RegExp, a SyntaxError when the string does
    not make a pattern.  Whatever the [subscriber] argument is, it
    throws nothing else, and when it throws the context is left as it
    was. *)
Theorem unsubscribe_throws (this this' : Context) (topics subscriber : value)
    (e : exn) :
  unsubscribe this topics subscriber = (Throw e, this') ->
  this' = this
  /\ _pubsub this <> None
  /\ ((e = topicsTypeError
       /\ typeof topics <> "string" /\ instanceofRegExp topics = false)
      \/ (e = SyntaxError /\ typeof topics = "string")).
Proof.
  unfold unsubscribe, forEachTopic.
  destruct (_pubsub this) as [ns|] eqn:Hns; [| discriminate].
  destruct (toRegExp topics) as [re|e'|] eqn:Hre.
  - destruct (forIn_unsubscribe_Normal subscriber (forInKeys ns) re ns) as [ns' E].
    rewrite E; discriminate.
  - intros H; inversion H; subst.
    split; [reflexivity |]. split; [discriminate |].
    apply toRegExp_Throw; exact Hre.
  - discriminate.
Qed.

Lemma unsubscribe_throws_witness :
  unsubscribe pair (VString "(") (VFunction 1) = (Throw SyntaxError, pair)
  /\ typeof (VString "(") = "string".
Proof.
  split; [reflexivity |].
  destruct (unsubscribe_throws pair pair (VString "(") (VFunction 1) SyntaxError
              eq_refl) as [_ [_ [[E _]|[_ H]]]].
  - discriminate E.
  - exact H.
Defined.

Section PublishErrors.

Variable W : Type.
Variable invoke : fnref -> Context -> value -> W -> returned * W.
Variable this : Context.
Variable message : value.

Lemma returning_length (fs : list fnref) (w : W) (vs : list value) (w' : W) :
  returning W invoke this message fs w vs w' -> List.length vs = List.length fs.
Proof. induction 1; simpl; [reflexivity | f_equal; assumption]. Qed.

Lemma callSubscribers_Throw (fs : list fnref) :
  forall st e st',
    callSubscribers W invoke this message fs st = (Throw e, st') ->
    exists pre f post vs v w1,
      fs = pre ++ f :: post
      /\ returning W invoke this message pre (world st) vs w1
      /\ invoke f this message w1 = (Raise v, world st')
      /\ e = Thrown v
      /\ invoked st' = invoked st ++ pre ++ [f]
      /\ results st' = results st ++ vs.
Proof.
  induction fs as [|f fs IH]; intros st e st' H; simpl in H; [discriminate H |].
  destruct (invoke f this message (world st)) as [[v|v] w1] eqn:E.
  - apply IH in H as [pre [g [post [vs [x [w2 [Hfs [Hr [Hg [He [Hinv Hres]]]]]]]]]]].
    simpl in *.
    exists (f :: pre), g, post, (v :: vs), x, w2. repeat split.
    + simpl; f_equal; exact Hfs.
    + econstructor; eassumption.
    + exact Hg.
    + exact He.
    + rewrite Hinv, <- app_assoc; reflexivity.
    + rewrite Hres, <- app_assoc; reflexivity.
  - inversion H; subst; simpl.
    exists [], f, fs, [], v, (world st). repeat split.
    + constructor.
    + exact E.
    + rewrite app_nil_r; reflexivity.
Qed.

End PublishErrors.

(** X5: the array that [publish] returns has one element for each
    subscriber it called. *)
Theorem publish_length (W : Type)
    (invoke : fnref -> Context -> value -> W -> returned * W)
    (this : Context) (topics message : value) (w : W)
    (rs : list value) (st : pstate W) :
  publish W invoke this topics message w = (Normal rs, st) ->
  rs = results st /\ List.length rs = List.length (invoked st).
Proof.
  intros H. destruct (toRegExp topics) as [re|e|] eqn:Hre.
  - destruct (publish_Normal W invoke this topics re message w rs st Hre H)
      as [Hr [Hres Hinv]].
    split; [symmetry; exact Hres |].
    rewrite Hinv. eapply returning_length; exact Hr.
  - unfold publish, forEachTopic in H. rewrite Hre in H.
    destruct (_pubsub this); inversion H; subst; split; reflexivity.
  - unfold publish, forEachTopic in H. rewrite Hre in H.
    destruct (_pubsub this); inversion H; subst; split; reflexivity.
Qed.

Lemma publish_length_witness :
  List.length (results (snd (publish (list fnref) logging pair (VString "*")
                               VUndefined [])))
  = List.length (invoked (snd (publish (list fnref) logging pair (VString "*")
                                 VUndefined []))).
Proof.
  exact (proj2 (publish_length (list fnref) logging pair (VString "*") VUndefined []
                  [VObject 1; VObject 3; VObject 2]
                  (mkPstate [VObject 1; VObject 3; VObject 2] [1; 3; 2] [1; 3; 2])
                  eq_refl)).
Defined.

(** X6: [publish] throws in three cases only, all on a context that has
    a registry: its TypeError or a SyntaxError for the [topics]
    argument, before any subscriber is called; or the value thrown by a
    subscriber, which is then the last one called, every subscriber
    before it having returned. *)
Theorem publish_throws (W : Type)
    (invoke : fnref -> Context -> value -> W -> returned * W)
    (this : Context) (topics message : value) (w : W) (e : exn) (st : pstate W) :
  publish W invoke this topics message w = (Throw e, st) ->
  _pubsub this <> None
  /\ ((st = mkPstate [] [] w
       /\ ((e = topicsTypeError
            /\ typeof topics <> "string" /\ instanceofRegExp topics = false)
           \/ (e = SyntaxError /\ typeof topics = "string")))
      \/ exists re pre f post vs v w1,
           toRegExp topics = Normal re
           /\ visited (registryOf this) re = pre ++ f :: post
           /\ returning W invoke this message pre w vs w1
           /\ invoke f this message w1 = (Raise v, world st)
           /\ e = Thrown v
           /\ invoked st = pre ++ [f]
           /\ results st = vs).
Proof.
  intros H.
  assert (Hreg : _pubsub this <> None).
  { intros Hnone. unfold publish, forEachTopic in H; rewrite Hnone in H.
    discriminate H. }
  split; [exact Hreg |].
  destruct (toRegExp topics) as [re|e'|] eqn:Hre.
  - right.
    rewrite (publish_visited_any W invoke this message topics re w Hre) in H.
    destruct (callSubscribers W invoke this message (visited (registryOf this) re)
                (mkPstate [] [] w)) as [[u|e'|] st'] eqn:E;
      inversion H; subst.
    apply callSubscribers_Throw in E
      as [pre [f [post [vs [v [w1 [Hfs [Hr [Hf [He [Hinv Hres]]]]]]]]]]].
    simpl in *. exists re, pre, f, post, vs, v, w1.
    repeat split; assumption.
  - left. unfold publish, forEachTopic in H. rewrite Hre in H.
    destruct (_pubsub this); [| contradiction Hreg; reflexivity].
    inversion H; subst. split; [reflexivity |].
    apply toRegExp_Throw; exact Hre.
  - unfold publish, forEachTopic in H. rewrite Hre in H.
    destruct (_pubsub this); discriminate H.
Qed.

Lemma publish_throws_witness :
  exists pre f,
    invoked (snd (publish (list fnref) failing trio (VString "b") VUndefined []))
    = pre ++ [f].
Proof.
  destruct (publish_throws (list fnref) failing trio (VString "b") VUndefined []
              (Thrown (VString "boom")) (mkPstate [VObject 1] [1; 9] [1; 9]) eq_refl)
    as [_ [[E _]|[re [pre [f [post [vs [v [w1 [_ [_ [_ [_ [_ [Hinv _]]]]]]]]]]]]]]].
  - discriminate E.
  - exists pre, f; exact Hinv.
Defined.

(** ** How the methods compose *)

Lemma isSome_indexOfRef (subs : list fnref) (f : fnref) :
  isSome (indexOfRef subs f) = true <-> In f subs.
Proof.
  destruct (indexOfRef subs f) eqn:E; simpl.
  - split; [intros _ | reflexivity].
    destruct (in_dec Nat.eq_dec f subs) as [Hin|Hnot]; [exact Hin |].
    apply indexOfRef_None in Hnot; congruence.
  - apply indexOfRef_None in E. split; [discriminate | contradiction].
Qed.

Lemma prune_not_In (f : fnref) (subs : list fnref) :
  NoDup subs -> ~ In f (prune (VFunction f) subs).
Proof.
  intros Hnd. destruct (prune_removedFrom f subs) as [[Hnot ->]|[l1 [l2 [E [_ ->]]]]];
    [exact Hnot |].
  rewrite E in Hnd. apply NoDup_remove_2 in Hnd; exact Hnd.
Qed.

Lemma prune_absent (f : fnref) (subs : list fnref) :
  ~ In f subs -> prune (VFunction f) subs = subs.
Proof.
  intros Hnot; unfold prune; simpl.
  apply indexOfRef_None in Hnot; rewrite Hnot; reflexivity.
Qed.

Lemma prune_idempotent (v : value) (subs : list fnref) :
  NoDup subs -> prune v (prune v subs) = prune v subs.
Proof.
  intros Hnd. destruct v; try reflexivity.
  apply prune_absent, prune_not_In; exact Hnd.
Qed.

Lemma prune_remove (f : fnref) (subs : list fnref) :
  NoDup subs -> prune (VFunction f) subs = remove Nat.eq_dec f subs.
Proof.
  intros Hnd.
  destruct (prune_removedFrom f subs) as [[Hnot ->]|[l1 [l2 [E [Hn1 ->]]]]].
  - symmetry; apply notin_remove; exact Hnot.
  - rewrite E in *. pose proof (NoDup_remove_2 _ _ _ Hnd) as Hn.
    rewrite remove_app; simpl.
    destruct (Nat.eq_dec f f) as [_|Hne]; [| contradiction].
    rewrite <- remove_app. symmetry; apply notin_remove; exact Hn.
Qed.

Lemma forInKeys_same_keys (ns1 ns2 : registry) :
  map fst ns1 = map fst ns2 -> forInKeys ns1 = forInKeys ns2.
Proof. unfold forInKeys; intros ->; reflexivity. Qed.

Lemma map_prune_keys (v : value) (sel : list string) (ns : registry) :
  map fst (map (fun e => if memKey (fst e) sel
                         then (fst e, prune v (snd e)) else e) ns)
  = map fst ns.
Proof.
  rewrite map_map. apply map_ext; intros e.
  destruct (memKey (fst e) sel); reflexivity.
Qed.

Lemma filter_none_selected (ns : registry) :
  filter (fun e => negb (memKey (fst e) [])) ns = ns.
Proof. induction ns as [|e ns IH]; simpl; [reflexivity | f_equal; exact IH]. Qed.

Lemma filter_nil (A : Type) (p : A -> bool) (l : list A) :
  (forall x, In x l -> p x = false) -> filter p l = [].
Proof.
  induction l as [|x l IH]; simpl; intros H; [reflexivity |].
  rewrite (H x (or_introl eq_refl)). apply IH; intros y Hy; apply H; right; exact Hy.
Qed.

(** After [unsubscribe(topics)], no key that is left is accepted by
    [topics]. *)
Lemma matching_after_delete (re : RegExp) (ns : registry) :
  global re = false -> sticky re = false ->
  matching re
    (forInKeys (filter (fun e => negb (memKey (fst e) (matching re (forInKeys ns))))
                  ns))
  = [].
Proof.
  intros Hg Hy. set (ns1 := filter _ ns).
  rewrite (matching_stateless re _ Hg Hy).
  apply filter_nil; intros k Hk.
  apply forInKeys_In, in_map_iff in Hk as [e [<- He]].
  apply filter_In in He as [He Hsel].
  rewrite (matching_stateless re _ Hg Hy) in Hsel.
  rewrite memKey_filter in Hsel; [apply negb_true_iff; exact Hsel |].
  apply forInKeys_In, in_map_iff; eauto.
Qed.

(** X7: with a string, or a RegExp that has neither the [g] nor the [y]
    flag, a second [unsubscribe] with the same arguments changes
    nothing and ends as the first did. *)
Theorem unsubscribe_idempotent (this : Context) (topics subscriber : value) :
  stateless topics = true ->
  wfContext this ->
  unsubscribe (snd (unsubscribe this topics subscriber)) topics subscriber
  = unsubscribe this topics subscriber.
Proof.
  intros Hs Hwf.
  destruct (_pubsub this) as [ns|] eqn:Hns;
    [| unfold unsubscribe, forEachTopic; repeat (rewrite ?Hns; simpl); reflexivity].
  destruct (toRegExp topics) as [re|e|] eqn:Hre;
    [| unfold unsubscribe, forEachTopic; repeat (rewrite ?Hns, ?Hre; simpl);
       reflexivity ..].
  unfold wfContext in Hwf; rewrite Hns in Hwf. destruct Hwf as [Hkeys Hsubs].
  destruct (toRegExp_stateless topics re Hs Hre) as [Hg Hy].
  rewrite (unsubscribe_result this ns topics subscriber re Hns Hkeys Hre).
  cbn [snd]. destruct (truthy subscriber) eqn:Ht.
  - set (ns1 := map (fun e => if memKey (fst e) (matching re (forInKeys ns))
                              then (fst e, prune subscriber (snd e)) else e) ns).
    assert (Hkeys1 : map fst ns1 = map fst ns) by apply map_prune_keys.
    rewrite (unsubscribe_result (mkContext (Some ns1) (extensible this)) ns1 topics subscriber re
               eq_refl ltac:(rewrite Hkeys1; exact Hkeys) Hre).
    rewrite Ht. do 3 f_equal.
    rewrite (forInKeys_same_keys ns1 ns Hkeys1). unfold ns1.
    rewrite map_map. apply map_ext_in; intros e He.
    destruct (memKey (fst e) (matching re (forInKeys ns))) eqn:Em; cbn [fst snd];
      rewrite Em; [| reflexivity].
    f_equal. apply prune_idempotent.
    rewrite Forall_forall in Hsubs; exact (Hsubs e He).
  - set (ns1 := filter (fun e => negb (memKey (fst e) (matching re (forInKeys ns))))
                  ns).
    rewrite (unsubscribe_result (mkContext (Some ns1) (extensible this)) ns1 topics subscriber re
               eq_refl (NoDup_keys_filter _ ns Hkeys) Hre).
    rewrite Ht. unfold ns1 at 1.
    rewrite (matching_after_delete re ns Hg Hy), filter_none_selected.
    reflexivity.
Qed.

Lemma unsubscribe_idempotent_witness :
  unsubscribe (snd (unsubscribe pair (VString "*") (VFunction 1)))
    (VString "*") (VFunction 1)
  = unsubscribe pair (VString "*") (VFunction 1).
Proof.
  apply (unsubscribe_idempotent pair (VString "*") (VFunction 1) eq_refl).
  exact pair_wf.
Defined.

Section PublishAfter.

Variable W : Type.
Variable invoke : fnref -> Context -> value -> W -> returned * W.

Lemma callSubscribers_invoked (this : Context) (message : value) (fs : list fnref) :
  forall st g,
    In g (invoked (snd (callSubscribers W invoke this message fs st))) ->
    In g (invoked st) \/ In g fs.
Proof.
  induction fs as [|f fs IH]; intros st g H; simpl in H; [left; exact H |].
  destruct (invoke f this message (world st)) as [[v|v] w1].
  - apply IH in H as [H|H]; [| right; right; exact H]. simpl in H.
    apply in_app_or in H as [H|[<-|[]]]; [left; exact H | right; left; reflexivity].
  - simpl in H.
    apply in_app_or in H as [H|[<-|[]]]; [left; exact H | right; left; reflexivity].
Qed.

(** Whatever way it ends, [publish] calls only subscribers bound to
    keys that [topics] selects. *)
Lemma publish_invoked (this : Context) (topics message : value) (w : W) (g : fnref) :
  In g (invoked (snd (publish W invoke this topics message w))) ->
  exists re, toRegExp topics = Normal re /\ In g (visited (registryOf this) re).
Proof.
  destruct (toRegExp topics) as [re|e|] eqn:Hre.
  - rewrite (publish_visited_any W invoke this message topics re w Hre).
    intros H. exists re; split; [reflexivity |].
    pose proof (callSubscribers_invoked this message (visited (registryOf this) re)
                  (mkPstate [] [] w) g) as Hin.
    destruct (callSubscribers W invoke this message (visited (registryOf this) re)
                (mkPstate [] [] w)) as [[u|e|] st]; simpl in *;
      (destruct (Hin H) as [[]|Hv]; exact Hv).
  - unfold publish, forEachTopic; rewrite Hre.
    destruct (_pubsub this); intros [].
  - unfold publish, forEachTopic; rewrite Hre.
    destruct (_pubsub this); intros [].
Qed.

End PublishAfter.

(** X8: after [unsubscribe(topics)], a [publish] to the same [topics] (a
    string, or a RegExp without the [g] and [y] flags) calls no
    subscriber at all. *)
Theorem publish_after_unsubscribe_all (W : Type)
    (invoke : fnref -> Context -> value -> W -> returned * W)
    (this : Context) (topics subscriber message : value) (w : W) :
  stateless topics = true ->
  wfContext this ->
  truthy subscriber = false ->
  snd (publish W invoke (snd (unsubscribe this topics subscriber)) topics message w)
  = mkPstate [] [] w.
Proof.
  intros Hs Hwf Ht.
  destruct (_pubsub this) as [ns|] eqn:Hns;
    [| unfold unsubscribe, publish, forEachTopic; repeat (rewrite ?Hns; simpl);
       reflexivity].
  destruct (toRegExp topics) as [re|e|] eqn:Hre;
    [| unfold unsubscribe, publish, forEachTopic;
       repeat (rewrite ?Hns, ?Hre; simpl); reflexivity ..].
  unfold wfContext in Hwf; rewrite Hns in Hwf. destruct Hwf as [Hkeys _].
  destruct (toRegExp_stateless topics re Hs Hre) as [Hg Hy].
  rewrite (unsubscribe_result this ns topics subscriber re Hns Hkeys Hre), Ht.
  cbn [snd].
  rewrite (publish_visited_any W invoke _ message topics re w Hre).
  unfold visited, registryOf; cbn [_pubsub].
  rewrite (matching_after_delete re ns Hg Hy). reflexivity.
Qed.

Lemma publish_after_unsubscribe_all_witness :
  snd (publish (list fnref) logging (snd (unsubscribe pair (VString "b") VNull))
         (VString "b") VUndefined [])
  = mkPstate [] [] [].
Proof.
  apply (publish_after_unsubscribe_all (list fnref) logging pair (VString "b") VNull
           VUndefined [] eq_refl pair_wf eq_refl).
Defined.

(** X9: after [unsubscribe(topics, f)], a [publish] to the same
    [topics] (a string, or a RegExp without the [g] and [y] flags)
    never calls [f], whether it completes or throws. *)
Theorem publish_after_unsubscribe (W : Type)
    (invoke : fnref -> Context -> value -> W -> returned * W)
    (this : Context) (topics message : value) (f : fnref) (w : W) :
  stateless topics = true ->
  wfContext this ->
  ~ In f (invoked (snd (publish W invoke
                          (snd (unsubscribe this topics (VFunction f)))
                          topics message w))).
Proof.
  intros Hs Hwf Hin.
  apply publish_invoked in Hin as [re [Hre Hin]].
  destruct (_pubsub this) as [ns|] eqn:Hns.
  - unfold wfContext in Hwf; rewrite Hns in Hwf. destruct Hwf as [Hkeys Hsubs].
    rewrite (unsubscribe_result this ns topics (VFunction f) re Hns Hkeys Hre)
      in Hin.
    cbn [snd truthy] in Hin. unfold visited, registryOf in Hin; cbn [_pubsub] in Hin.
    rewrite (forInKeys_same_keys _ ns (map_prune_keys _ _ _)) in Hin.
    apply in_flat_map in Hin as [k [Hk Hin]].
    unfold subscribersOf in Hin.
    rewrite (getProp_map_cond (fun k => memKey k (matching re (forInKeys ns)))
               (prune (VFunction f)) ns k) in Hin.
    destruct (getProp ns k) as [subs|] eqn:Hget; [| exact Hin].
    rewrite (proj2 (memKey_In _ _) Hk) in Hin.
    apply (prune_not_In f subs); [| exact Hin].
    rewrite Forall_forall in Hsubs.
    exact (Hsubs _ (getProp_Some_In _ _ _ Hget)).
  - unfold unsubscribe, forEachTopic in Hin; rewrite Hns in Hin.
    unfold visited, registryOf in Hin; cbn [snd fst] in Hin; rewrite Hns in Hin.
    exact Hin.
Qed.

Lemma publish_after_unsubscribe_witness :
  ~ In 1 (invoked (snd (publish (list fnref) logging
                          (snd (unsubscribe pair (VString "*") (VFunction 1)))
                          (VString "*") VUndefined []))).
Proof.
  apply (publish_after_unsubscribe (list fnref) logging pair (VString "*") VUndefined
           1 [] eq_refl pair_wf).
Defined.

(** What [subscribe] makes of the registry. *)
Lemma subscribe_registry (this : Context) (t : string) (f : fnref) :
  subscribable this = true ->
  let subs := subscribersOf (registryOf this) t in
  registryOf (snd (subscribe this (VString t) (VFunction f)))
  = setProp (registryOf this) t
      (if isSome (indexOfRef subs f) then subs else subs ++ [f]).
Proof. intros H; rewrite (subscribe_unfold this t f H); reflexivity. Qed.

(** X10: on a context that has a registry or can be given one,
    [subscribe(t, f)] puts [f] last in the array of [t] unless it is
    there already, leaves the entries of all other topics as they are,
    and creates the key [t], after all the others, when it is new. *)
Theorem subscribe_frame (this : Context) (t : string) (f : fnref) :
  subscribable this = true ->
  let ns := registryOf this in
  let ns' := registryOf (snd (subscribe this (VString t) (VFunction f))) in
  (In f (subscribersOf ns t) -> subscribersOf ns' t = subscribersOf ns t)
  /\ (~ In f (subscribersOf ns t) -> subscribersOf ns' t = subscribersOf ns t ++ [f])
  /\ (forall k, k <> t -> getProp ns' k = getProp ns k)
  /\ (In t (map fst ns) -> map fst ns' = map fst ns)
  /\ (~ In t (map fst ns) -> map fst ns' = map fst ns ++ [t]).
Proof.
  intros Hable ns ns'.
  unfold ns'; rewrite (subscribe_registry this t f Hable); fold ns; cbv zeta.
  set (subs := subscribersOf ns t).
  assert (Hat : forall new, subscribersOf (setProp ns t new) t = new).
  { intros new; unfold subscribersOf.
    rewrite getProp_setProp, String.eqb_refl; reflexivity. }
  split; [| split; [| split; [| split]]].
  - intros Hin. rewrite Hat, (proj2 (isSome_indexOfRef subs f) Hin); reflexivity.
  - intros Hnot. rewrite Hat. destruct (isSome (indexOfRef subs f)) eqn:E;
      [apply isSome_indexOfRef in E; contradiction | reflexivity].
  - intros k Hk. rewrite getProp_setProp.
    destruct (String.eqb_spec t k); [congruence | reflexivity].
  - intros Hin. rewrite setProp_keys.
    destruct (getProp_present ns t Hin) as [l ->]; reflexivity.
  - intros Hnot. rewrite setProp_keys.
    rewrite (proj2 (getProp_None_iff ns t) Hnot); reflexivity.
Qed.

Lemma subscribe_frame_witness :
  subscribersOf (registryOf (subscribed pair "b" 7)) "b" = [1; 3; 7]
  /\ map fst (registryOf (subscribed pair "z" 7)) = ["b"; "c"; "z"].
Proof.
  split.
  - apply (proj1 (proj2 (subscribe_frame pair "b" 7 eq_refl))).
    simpl; intros [E|[E|[]]]; discriminate E.
  - apply (proj2 (proj2 (proj2 (proj2 (subscribe_frame pair "z" 7 eq_refl))))).
    simpl; intros [E|[E|[]]]; discriminate E.
Defined.

Lemma filter_eqb_absent (t : string) (keys : list string) :
  ~ In t keys -> filter (fun key => String.eqb key t) keys = [].
Proof.
  intros Hnot; apply filter_nil; intros k Hk.
  destruct (String.eqb_spec k t); [subst; contradiction | reflexivity].
Qed.

(** A topic of ordinary characters, used as the specification, reaches
    the subscribers bound to that very topic. *)
Lemma visited_literal (t : string) (ns : registry) :
  allChars ordinary t = true ->
  NoDup (map fst ns) ->
  exists re, toRegExp (VString t) = Normal re /\ visited ns re = subscribersOf ns t.
Proof.
  intros Hord Hnd.
  destruct (in_dec string_dec t (map fst ns)) as [Hin|Hnot].
  - destruct (matching_ordinary t ns Hord Hnd Hin) as [re [Hre Hsel]].
    exists re; split; [exact Hre |].
    unfold visited; rewrite Hsel; simpl; apply app_nil_r.
  - pose proof (toRegExp_escapeStars t (ordinary_ordinaryOrStar t Hord)) as Hre.
    rewrite (escapeStars_ordinary t Hord) in Hre.
    eexists; split; [exact Hre |].
    unfold visited. rewrite matching_flagless.
    rewrite (filter_ext _ (fun key => String.eqb key t)).
    + rewrite filter_eqb_absent.
      * unfold subscribersOf.
        rewrite (proj2 (getProp_None_iff ns t) Hnot); reflexivity.
      * intros H; apply Hnot, forInKeys_In; exact H.
    + intros key. rewrite scan_anchored, matcher_literal_Eol.
      destruct (String.eqb key t); reflexivity.
Qed.

(** X11: when the topic is made of ordinary characters, [publish(t)]
    that completes has called the subscribers bound to [t], in the order
    of their array, and no other (none when nothing is bound to [t]). *)
Theorem publish_literal (W : Type)
    (invoke : fnref -> Context -> value -> W -> returned * W)
    (this : Context) (t : string) (message : value) (w : W)
    (rs : list value) (st : pstate W) :
  allChars ordinary t = true ->
  wfContext this ->
  publish W invoke this (VString t) message w = (Normal rs, st) ->
  invoked st = subscribersOf (registryOf this) t
  /\ returning W invoke this message (subscribersOf (registryOf this) t) w rs (world st).
Proof.
  intros Hord Hwf Hpub.
  assert (Hnd : NoDup (map fst (registryOf this))).
  { unfold wfContext, registryOf in *. destruct (_pubsub this);
      [exact (proj1 Hwf) | constructor]. }
  destruct (visited_literal t (registryOf this) Hord Hnd) as [re [Hre Hvis]].
  destruct (publish_Normal W invoke this (VString t) re message w rs st Hre Hpub)
    as [Hr [_ Hinv]].
  rewrite Hvis in *. split; assumption.
Qed.

Lemma publish_literal_witness :
  invoked (snd (publish (list fnref) logging pair (VString "b") VUndefined []))
  = [1; 3].
Proof.
  exact (proj1 (publish_literal (list fnref) logging pair "b" VUndefined []
                  [VObject 1; VObject 3]
                  (mkPstate [VObject 1; VObject 3] [1; 3] [1; 3])
                  eq_refl pair_wf eq_refl)).
Defined.

(** X12: subscribers are called in the order in which they subscribed:
    on a context that has a registry or can be given one, after
    [subscribe(t, f)] of a subscriber that was not bound to [t], a
    [publish(t)] that completes has called the subscribers already bound
    to [t], then [f]. *)
Theorem publish_after_subscribe (W : Type)
    (invoke : fnref -> Context -> value -> W -> returned * W)
    (this : Context) (t : string) (f : fnref) (message : value) (w : W)
    (rs : list value) (st : pstate W) :
  allChars ordinary t = true ->
  wfContext this ->
  subscribable this = true ->
  ~ In f (subscribersOf (registryOf this) t) ->
  publish W invoke (snd (subscribe this (VString t) (VFunction f))) (VString t)
    message w
  = (Normal rs, st) ->
  invoked st = subscribersOf (registryOf this) t ++ [f].
Proof.
  intros Hord Hwf Hable Hnot Hpub.
  set (once := snd (subscribe this (VString t) (VFunction f))) in *.
  assert (Hwf1 : wfContext once) by (apply subscribe_wf; exact Hwf).
  assert (Hnd : NoDup (map fst (registryOf once))).
  { unfold wfContext, registryOf in *. destruct (_pubsub once);
      [exact (proj1 Hwf1) | constructor]. }
  destruct (visited_literal t (registryOf once) Hord Hnd) as [re [Hre Hvis]].
  destruct (publish_Normal W invoke once (VString t) re message w rs st Hre Hpub)
    as [_ [_ Hinv]].
  rewrite Hinv, Hvis. unfold once; rewrite (subscribe_registry this t f Hable); cbv zeta.
  unfold subscribersOf at 1. rewrite getProp_setProp, String.eqb_refl.
  destruct (isSome (indexOfRef (subscribersOf (registryOf this) t) f)) eqn:E;
    [apply isSome_indexOfRef in E; contradiction | reflexivity].
Qed.

Lemma publish_after_subscribe_witness :
  invoked (snd (publish (list fnref) logging (subscribed pair "b" 7) (VString "b")
                  VUndefined []))
  = [1; 3; 7].
Proof.
  apply (publish_after_subscribe (list fnref) logging pair "b" 7 VUndefined []
           [VObject 1; VObject 3; VObject 7]
           (mkPstate [VObject 1; VObject 3; VObject 7] [1; 3; 7] [1; 3; 7])
           eq_refl pair_wf eq_refl).
  - simpl; intros [E|[E|[]]]; discriminate E.
  - reflexivity.
Defined.

(** X13: on a context that has a registry or can be given one,
    [subscribe(t, f)] followed by [unsubscribe(t, f)], for a topic of
    ordinary characters, leaves [f] unbound from [t] and every other
    binding as it was; the key [t] stays in the registry, with an empty
    array if nothing else is bound to it. *)
Theorem subscribe_unsubscribe (this : Context) (t : string) (f : fnref) :
  allChars ordinary t = true ->
  wfContext this ->
  subscribable this = true ->
  exists ns2,
    unsubscribe (snd (subscribe this (VString t) (VFunction f))) (VString t)
      (VFunction f)
    = (Normal tt, mkContext (Some ns2) (extensible this))
    /\ In t (map fst ns2)
    /\ forall k,
        subscribersOf ns2 k
        = if String.eqb k t
          then remove Nat.eq_dec f (subscribersOf (registryOf this) t)
          else subscribersOf (registryOf this) k.
Proof.
  intros Hord Hwf Hable.
  set (once := snd (subscribe this (VString t) (VFunction f))).
  assert (Hwf1 : wfContext once) by (apply subscribe_wf; exact Hwf).
  assert (Hext : extensible once = extensible this)
    by (unfold once; rewrite (subscribe_unfold this t f Hable); reflexivity).
  pose proof (subscribe_registry this t f Hable) as Hreg;
    cbv zeta in Hreg; fold once in Hreg.
  set (subs := subscribersOf (registryOf this) t) in *.
  set (new := if isSome (indexOfRef subs f) then subs else subs ++ [f]) in *.
  assert (Hns1 : _pubsub once = Some (registryOf once)).
  { unfold once; rewrite (subscribe_unfold this t f Hable); reflexivity. }
  set (ns1 := registryOf once) in *.
  unfold wfContext in Hwf1; rewrite Hns1 in Hwf1. destruct Hwf1 as [Hkeys1 Hsubs1].
  assert (Hget1 : getProp ns1 t = Some new)
    by (rewrite Hreg, getProp_setProp, String.eqb_refl; reflexivity).
  assert (Hin1 : In t (map fst ns1)).
  { apply in_map_iff; exists (t, new); split;
      [reflexivity | apply getProp_Some_In; exact Hget1]. }
  destruct (matching_ordinary t ns1 Hord Hkeys1 Hin1) as [re [Hre Hsel]].
  rewrite (unsubscribe_result once ns1 (VString t) (VFunction f) re Hns1 Hkeys1 Hre).
  cbn [truthy]. rewrite Hsel, Hext.
  eexists; split; [reflexivity |]. split.
  - rewrite map_prune_keys; exact Hin1.
  - intros k. unfold subscribersOf at 1.
    rewrite (getProp_map_cond (fun k => memKey k [t]) (prune (VFunction f)) ns1 k).
    rewrite Hreg, getProp_setProp. unfold memKey; simpl. rewrite orb_false_r.
    rewrite (String.eqb_sym t k). destruct (String.eqb k t) eqn:Ek.
    + assert (Hnew : NoDup new).
      { rewrite Forall_forall in Hsubs1.
        exact (Hsubs1 _ (getProp_Some_In _ _ _ Hget1)). }
      rewrite (prune_remove f new Hnew). unfold new.
      destruct (isSome (indexOfRef subs f)); [reflexivity |].
      rewrite remove_app; simpl.
      destruct (Nat.eq_dec f f) as [_|Hne]; [apply app_nil_r | contradiction].
    + unfold subscribersOf. destruct (getProp (registryOf this) k); reflexivity.
Qed.

Lemma subscribe_unsubscribe_witness :
  exists ns2,
    unsubscribe (subscribed fresh "z" 7) (VString "z") (VFunction 7)
    = (Normal tt, mkContext (Some ns2) true)
    /\ In "z" (map fst ns2).
Proof.
  destruct (subscribe_unsubscribe fresh "z" 7 eq_refl I eq_refl) as [ns2 [E [Hin _]]].
  exists ns2; split; [exact E | exact Hin].
Defined.

Lemma unsubscribe_keys (this : Context) (topics : value) (f : fnref) :
  wfContext this ->
  map fst (registryOf (snd (unsubscribe this topics (VFunction f))))
  = map fst (registryOf this).
Proof.
  intros Hwf.
  destruct (_pubsub this) as [ns|] eqn:Hns;
    [| unfold unsubscribe, forEachTopic; rewrite Hns; reflexivity].
  destruct (toRegExp topics) as [re|e|] eqn:Hre;
    [| unfold unsubscribe, forEachTopic; rewrite Hns, Hre; reflexivity ..].
  unfold wfContext in Hwf; rewrite Hns in Hwf. destruct Hwf as [Hkeys _].
  rewrite (unsubscribe_result this ns topics (VFunction f) re Hns Hkeys Hre).
  unfold registryOf; rewrite Hns; cbn [snd _pubsub truthy].
  apply map_prune_keys.
Qed.

Lemma perform_keys (this : Context) (c : call) :
  wfContext this ->
  subscribable this = true ->
  map fst (registryOf (perform this c)) = noteTopic (map fst (registryOf this)) c.
Proof.
  intros Hwf Hable. destruct c as [t f|topics f]; cbn [perform noteTopic].
  - rewrite (subscribe_registry this t f Hable); cbv zeta. rewrite setProp_keys.
    destruct (getProp (registryOf this) t) as [subs|] eqn:E; cbn [isSome].
    + rewrite (proj2 (memKey_In t _)); [reflexivity |].
      apply in_map_iff; exists (t, subs); split;
        [reflexivity | apply getProp_Some_In; exact E].
    + rewrite memKey_false; [reflexivity | apply getProp_None_iff; exact E].
  - apply unsubscribe_keys; exact Hwf.
Qed.

(** The keys of the registry, in creation order, after a history of
    calls that delete no entry. *)
Lemma replay_keys (history : list call) (this : Context) :
  wfContext this ->
  subscribable this = true ->
  map fst (registryOf (replay history this))
  = fold_left noteTopic history (map fst (registryOf this)).
Proof.
  revert this; induction history as [|c history IH]; intros this Hwf Hable;
    [reflexivity |].
  cbn [replay fold_left]. fold (replay history (perform this c)).
  rewrite IH.
  - rewrite (perform_keys this c Hwf Hable); reflexivity.
  - destruct c; [apply subscribe_wf | apply unsubscribe_wf]; exact Hwf.
  - destruct c; [apply subscribe_subscribable | apply unsubscribe_subscribable];
      exact Hable.
Qed.

(** A topic whose entry was deleted and that is subscribed to again is
    created anew, after the topics subscribed to in between:
    [subscribe('a', f1); subscribe('b', f2); unsubscribe('a');
     subscribe('a', f1)] leaves the keys [b], [a], in this order. *)
Example resubscribed_topic_goes_last :
  map fst
    (registryOf
       (subscribed
          (snd (unsubscribe (subscribed (subscribed fresh "a" 1) "b" 2)
                  (VString "a") VUndefined))
          "a" 1))
  = ["b"; "a"].
Proof. reflexivity. Qed.

(** X14: on a context built from an extensible object without registry
    by calls that delete no entry ([subscribe], and [unsubscribe] with
    a subscriber), the keys of the registry are the topics subscribed
    to, in the order of their first subscription; and when none of them
    is an array index, a [publish] that completes visits the selected
    topics in that order. *)
Theorem publish_creation_order (W : Type)
    (invoke : fnref -> Context -> value -> W -> returned * W)
    (start : Context) (history : list call)
    (topics : value) (re : RegExp) (message : value) (w : W)
    (rs : list value) (st : pstate W) :
  _pubsub start = None ->
  extensible start = true ->
  forallb isNamedKey (firstSubscribed history) = true ->
  toRegExp topics = Normal re ->
  publish W invoke (replay history start) topics message w = (Normal rs, st) ->
  map fst (registryOf (replay history start)) = firstSubscribed history
  /\ invoked st
     = flat_map (subscribersOf (registryOf (replay history start)))
         (matching re (firstSubscribed history)).
Proof.
  intros Hnone Hext Hnamed Hre Hpub.
  assert (Hkeys : map fst (registryOf (replay history start))
                  = firstSubscribed history).
  { rewrite replay_keys.
    - unfold registryOf; rewrite Hnone; reflexivity.
    - unfold wfContext; rewrite Hnone; exact I.
    - unfold subscribable; rewrite Hnone; exact Hext. }
  split; [exact Hkeys |].
  destruct (publish_Normal W invoke (replay history start) topics re message w rs st
              Hre Hpub) as [_ [_ Hinv]].
  rewrite Hinv. unfold visited.
  rewrite forInKeys_named; rewrite Hkeys; [reflexivity | exact Hnamed].
Qed.

Lemma publish_creation_order_witness :
  map fst (registryOf (replay calls fresh)) = ["b"; "c"; "a"]
  /\ invoked (snd (publish (list fnref) logging (replay calls fresh) (VString "*")
                     VUndefined []))
     = [1; 3; 4].
Proof.
  exact (publish_creation_order (list fnref) logging fresh calls (VString "*")
           anything VUndefined [] [VObject 1; VObject 3; VObject 4]
           (mkPstate [VObject 1; VObject 3; VObject 4] [1; 3; 4] [1; 3; 4])
           eq_refl eq_refl eq_refl eq_refl eq_refl).
Defined.

Lemma glob_star (key : string) : glob "*" key = allChars notLineTerminator key.
Proof.
  induction key as [|d key IH]; [reflexivity |].
  change (glob "*" (String d key))
    with (false || (negb (isLineTerminator d) && glob "*" key)).
  rewrite IH; reflexivity.
Qed.

(** X15: [unsubscribe('*')] deletes the entry of every topic in whose
    name there is no line terminator, and leaves the others; the
    registry itself stays, empty when every entry is deleted. *)
Theorem unsubscribe_star (this : Context) (ns : registry) (subscriber : value) :
  _pubsub this = Some ns ->
  NoDup (map fst ns) ->
  truthy subscriber = false ->
  unsubscribe this (VString "*") subscriber
  = (Normal tt,
     mkContext
       (Some (filter (fun e => negb (allChars notLineTerminator (fst e))) ns))
       (extensible this))
  /\ (forallb (fun e => allChars notLineTerminator (fst e)) ns = true ->
      unsubscribe this (VString "*") subscriber
      = (Normal tt, mkContext (Some []) (extensible this))).
Proof.
  intros Hns Hkeys Ht.
  assert (E : unsubscribe this (VString "*") subscriber
              = (Normal tt,
                 mkContext
                   (Some (filter (fun e => negb (allChars notLineTerminator (fst e)))
                            ns))
                   (extensible this))).
  { rewrite (unsubscribe_result this ns (VString "*") subscriber anything Hns Hkeys
               eq_refl), Ht.
    do 3 f_equal. apply filter_ext_in; intros e He. f_equal.
    unfold anything; rewrite matching_flagless.
    rewrite memKey_filter
      by (apply forInKeys_In, in_map_iff; exists e; split; [reflexivity | exact He]).
    assert (Hsel : Some (glob "*" (fst e)) = Some (fst (test anything (fst e))))
      by (rewrite <- (selects_wildcards "*" (fst e) eq_refl); reflexivity).
    injection Hsel as Hsel.
    unfold anything in Hsel; rewrite test_flagless in Hsel; cbn [fst] in Hsel.
    cbn [pattern]. rewrite <- Hsel. apply glob_star. }
  split; [exact E |].
  intros Hall. rewrite E. do 3 f_equal.
  apply filter_nil; intros e He.
  rewrite forallb_forall in Hall. rewrite (Hall e He); reflexivity.
Qed.

Lemma unsubscribe_star_witness :
  unsubscribe multiline (VString "*") VUndefined
  = (Normal tt,
     mkContext (Some [(String "a" (String "010" "b"), [2])]) true).
Proof.
  apply (proj1 (unsubscribe_star multiline
                  [("b", [1]); (String "a" (String "010" "b"), [2])] VUndefined
                  eq_refl
                  ltac:(repeat constructor; simpl; intuition discriminate)
                  eq_refl)).
Defined.
